(** * AIP Proxy: a shallow embedding of the cache, the compressor and the
    request dispatcher, with the properties of their specification.

    Sources: [src/aip_proxy/cache.py], [src/aip_proxy/compressor.py],
    [src/aip_proxy/server.py].

    Conventions of the embedding.
    - A Python [str] is a [string]; every [ascii] stands for one character, so
      texts range over the 8-bit (Latin-1) part of Unicode.  A [bytes] value
      is a [string] as well, one [ascii] per byte.
    - A Python [int] is a [Z]; a Python [float] is a [spec_float].
    - A value produced by [json.loads] is a [json]; a Python [dict] is an
      association list in insertion order whose keys are pairwise distinct.
    - [time.time()] is an oracle: each call site receives its reading as an
      argument, an exact number of clock ticks ([Z]); [ttl] is in the same
      unit.
    - [hashlib] and [json.dumps]/[json.loads] belong to the Python library:
      they are parameters of the definitions that call them. *)

From Stdlib Require Import String Ascii List ZArith Lia Bool Arith.
From Stdlib Require Import SpecFloat.
Import ListNotations.

Set Warnings "-register-all".

Local Open Scope string_scope.
Local Open Scope Z_scope.

(* ================================================================== *)
(** * Part I. Definitions *)
(* ================================================================== *)

(** ** Python values *)

Module Py.

(** Exceptions that the modelled code can raise. *)
Inductive exn : Type :=
| JSONDecodeError
| UnicodeDecodeError
| ValueError
| KeyError
| TypeError
| AttributeError
| TransportError.

(** [issubclass]: [JSONDecodeError] and [UnicodeDecodeError] both derive
    from [ValueError]. *)
Definition issubclass (e cls : exn) : bool :=
  match cls, e with
  | ValueError, (ValueError | JSONDecodeError | UnicodeDecodeError) => true
  | JSONDecodeError, JSONDecodeError => true
  | UnicodeDecodeError, UnicodeDecodeError => true
  | KeyError, KeyError => true
  | TypeError, TypeError => true
  | AttributeError, AttributeError => true
  | TransportError, TransportError => true
  | _, _ => false
  end.

(** [except (c1, c2, ...)]: does the clause catch [e]? *)
Definition catches (clause : list exn) (e : exn) : bool :=
  existsb (issubclass e) clause.
Arguments catches : simpl never.

Inductive result (A : Type) : Type :=
| Ok (a : A)
| Raise (e : exn).
Arguments Ok {A} a.
Arguments Raise {A} e.

(** JSON documents as [json.loads] builds them. *)
Inductive json : Type :=
| JNull
| JBool (b : bool)
| JInt (z : Z)
| JFloat (f : spec_float)
| JStr (s : string)
| JArr (l : list json)
| JObj (d : list (string * json)).

(** The float [1.0], in binary64 normal form. *)
Definition float_one : spec_float := S754_finite false 4503599627370496 (-52).
Definition float_zero : spec_float := S754_zero false.

(** Truth value of a JSON value ([if v:], [not v]). *)
Definition truthy (v : json) : bool :=
  match v with
  | JNull => false
  | JBool b => b
  | JInt z => negb (z =? 0)
  | JFloat f => match f with S754_zero _ => false | _ => true end
  | JStr s => match s with EmptyString => false | _ => true end
  | JArr l => match l with [] => false | _ => true end
  | JObj d => match d with [] => false | _ => true end
  end.

(** [v > 0]: an order comparison with the integer 0.  [bool] is a subclass
    of [int]; a NaN compares false; strings, lists and dicts raise
    [TypeError], and so does [None]. *)
Definition gt_zero (v : json) : result bool :=
  match v with
  | JBool b => Ok b
  | JInt z => Ok (0 <? z)
  | JFloat f => Ok (SFltb float_zero f)
  | JNull | JStr _ | JArr _ | JObj _ => Raise TypeError
  end.

(** *** Dictionaries, in insertion order *)

Section Dict.
Context {V : Type}.

Definition dict := list (string * V).

(** [d.get(k)] / [d[k]] *)
Fixpoint dict_get (k : string) (d : dict) : option V :=
  match d with
  | [] => None
  | (k', v) :: d' => if String.eqb k k' then Some v else dict_get k d'
  end.

(** [k in d] *)
Definition dict_mem (k : string) (d : dict) : bool :=
  match dict_get k d with Some _ => true | None => false end.

(** [d[k] = v]: an existing key keeps its place, a new key goes last. *)
Fixpoint dict_set (k : string) (v : V) (d : dict) : dict :=
  match d with
  | [] => [(k, v)]
  | (k', v') :: d' =>
      if String.eqb k k' then (k', v) :: d' else (k', v') :: dict_set k v d'
  end.

(** [del d[k]] *)
Fixpoint dict_del (k : string) (d : dict) : dict :=
  match d with
  | [] => []
  | (k', v') :: d' =>
      if String.eqb k k' then d' else (k', v') :: dict_del k d'
  end.

Definition keys (d : dict) : list string := map fst d.

(** The representation invariant of a Python dict. *)
Definition dict_wf (d : dict) : Prop := NoDup (keys d).
End Dict.
Arguments dict V : clear implicits.

(** [d.get(k, default)] *)
Definition get_default (k : string) (default : json) (d : dict json) : json :=
  match dict_get k d with Some v => v | None => default end.

End Py.
Import Py.

(** ** cache.py *)

Module Cache.

(** A stored entry, [{"data": response_data, "ts": time.time()}]. *)
Record entry : Type := Entry { data : json; ts : Z }.

(** The fields of a [ResponseCache]; [_stats] is spread over three
    counters. *)
Record ResponseCache : Type := mkCache {
  enabled : bool;
  ttl : Z;
  max_size : Z;
  _cache : dict entry;
  hits : Z;
  misses : Z;
  evictions : Z
}.

(** [ResponseCache.__init__] *)
Definition init (enabled : bool) (ttl max_size : Z) : ResponseCache :=
  mkCache enabled ttl max_size [] 0 0 0.

Definition set_cache (c : ResponseCache) (d : dict entry) : ResponseCache :=
  mkCache (enabled c) (ttl c) (max_size c) d (hits c) (misses c) (evictions c).
Definition incr_hits (c : ResponseCache) : ResponseCache :=
  mkCache (enabled c) (ttl c) (max_size c) (_cache c) (hits c + 1) (misses c)
          (evictions c).
Definition incr_misses (c : ResponseCache) : ResponseCache :=
  mkCache (enabled c) (ttl c) (max_size c) (_cache c) (hits c) (misses c + 1)
          (evictions c).
Definition incr_evictions (c : ResponseCache) : ResponseCache :=
  mkCache (enabled c) (ttl c) (max_size c) (_cache c) (hits c) (misses c)
          (evictions c + 1).

(** [min(self._cache, key=lambda k: self._cache[k]["ts"])]: the scan keeps
    the first of the smallest timestamps; on an empty dict [min] raises
    [ValueError].  The key function reads the entry stored under [k], which
    is the entry paired with [k], the keys being distinct. *)
Fixpoint min_from (best : string * entry) (d : dict entry) : string :=
  match d with
  | [] => fst best
  | x :: d' =>
      if ts (snd x) <? ts (snd best) then min_from x d' else min_from best d'
  end.

Definition oldest_key (d : dict entry) : result string :=
  match d with
  | [] => Raise ValueError
  | x :: d' => Ok (min_from x d')
  end.

(** [temp is not None and temp > 0] *)
Definition positive (temp : json) : result bool :=
  match temp with
  | JNull => Ok false
  | _ => gt_zero temp
  end.

Section WithDigest.
(** [digest v] stands for
    [hashlib.sha256(json.dumps(v, sort_keys=True, default=str).encode())
     .hexdigest()[:16]]. *)
Variable digest : json -> string.

(** [ResponseCache._make_key] *)
Definition _make_key (request_data : dict json) : string :=
  let key_parts :=
    [ ("model", get_default "model" (JStr "") request_data);
      ("messages", get_default "messages" (JArr []) request_data);
      ("temperature", get_default "temperature" (JFloat float_one) request_data);
      ("max_tokens", get_default "max_tokens" JNull request_data) ] in
  digest (JObj key_parts).

(** [ResponseCache.get]; [now_check] and [now_touch] are the readings of
    the two calls of [time.time()].  The value returned is a Python object:
    [None] is [JNull]. *)
Definition get (c : ResponseCache) (now_check now_touch : Z)
           (request_data : dict json) : json * ResponseCache :=
  if negb (enabled c) then (JNull, c)
  else
    let key := _make_key request_data in
    match dict_get key (_cache c) with
    | None => (JNull, incr_misses c)
    | Some e =>
        if now_check - ts e >? ttl c then
          (JNull, incr_misses (set_cache c (dict_del key (_cache c))))
        else
          (data e,
           set_cache (incr_hits c)
                     (dict_set key (Entry (data e) now_touch) (_cache c)))
    end.

(** [ResponseCache.put]; [now] is the reading of [time.time()].  The
    result holds the exception, if one is raised, and the cache the call
    leaves behind. *)
Definition put (c : ResponseCache) (now : Z) (request_data : dict json)
           (response_data : json) : result unit * ResponseCache :=
  if negb (enabled c) then (Ok tt, c)
  else
    let temp := get_default "temperature" (JFloat float_one) request_data in
    match positive temp with
    | Raise e => (Raise e, c)
    | Ok true => (Ok tt, c)
    | Ok false =>
        let key := _make_key request_data in
        let store (c' : ResponseCache) :=
          (Ok tt, set_cache c' (dict_set key (Entry response_data now) (_cache c'))) in
        if (max_size c <=? Z.of_nat (length (_cache c)))
           && negb (dict_mem key (_cache c))
        then
          match oldest_key (_cache c) with
          | Raise e => (Raise e, c)
          | Ok oldest =>
              store (incr_evictions (set_cache c (dict_del oldest (_cache c))))
          end
        else store c
    end.

(** [ResponseCache.clear] *)
Definition clear (c : ResponseCache) : ResponseCache := set_cache c [].

(** A call of one of the three methods, with its clock readings. *)
Inductive op : Type :=
| OpGet (now_check now_touch : Z) (request_data : dict json)
| OpPut (now : Z) (request_data : dict json) (response_data : json)
| OpClear.

Definition step (c : ResponseCache) (o : op) : ResponseCache :=
  match o with
  | OpGet n1 n2 r => snd (get c n1 n2 r)
  | OpPut n r p => snd (put c n r p)
  | OpClear => clear c
  end.

(** The cache after a sequence of calls; a call that raises leaves the
    cache as [put] left it and the caller goes on. *)
Definition run (c : ResponseCache) (ops : list op) : ResponseCache :=
  fold_left step ops c.
End WithDigest.

End Cache.

(** ** Python strings *)

Module Str.

Definition nl : ascii := "010"%char.
Definition NL : string := String nl "".

Definition is_nl (c : ascii) : bool := Ascii.eqb c nl.

Definition code (c : ascii) : nat := nat_of_ascii c.

Definition between (lo hi : nat) (c : ascii) : bool :=
  (Nat.leb lo (code c) && Nat.leb (code c) hi)%bool.

(** [str.isspace] on one character, which is also the class [\s] of [re]:
    TAB..CR, FS..US, SPACE, NEL and NBSP. *)
Definition is_space (c : ascii) : bool :=
  (between 9 13 c || between 28 32 c
   || Nat.eqb (code c) 133 || Nat.eqb (code c) 160)%bool.

(** The class [\w] of [re] on [str] patterns: alphanumeric characters and
    the underscore. *)
Definition is_word (c : ascii) : bool :=
  (between 48 57 c || between 65 90 c || Nat.eqb (code c) 95
   || between 97 122 c
   || Nat.eqb (code c) 170 || between 178 179 c || Nat.eqb (code c) 181
   || between 185 186 c || between 188 190 c
   || between 192 214 c || between 216 246 c || between 248 255 c)%bool.

(** The class [.] (no DOTALL): everything but a newline. *)
Definition is_dot (c : ascii) : bool := negb (is_nl c).

(** [ [ \t] ] *)
Definition is_blank (c : ascii) : bool :=
  (Nat.eqb (code c) 32 || Nat.eqb (code c) 9)%bool.

(** [ [\s\S] ] *)
Definition is_any (c : ascii) : bool := true.

(** ASCII lower-casing, for IGNORECASE on the ASCII patterns of the
    compressor. *)
Definition lower (c : ascii) : ascii :=
  if between 65 90 c then ascii_of_nat (code c + 32) else c.

(** [len(s)] *)
Definition len (s : string) : Z := Z.of_nat (String.length s).

(** [s.split('\n')] *)
Fixpoint split_nl (s : string) : list string :=
  match s with
  | EmptyString => [""]
  | String c s' =>
      if is_nl c then "" :: split_nl s'
      else match split_nl s' with
           | l :: ls => String c l :: ls
           | [] => [String c ""]
           end
  end.

(** ['\n'.join(ls)] *)
Fixpoint join_nl (ls : list string) : string :=
  match ls with
  | [] => ""
  | [l] => l
  | l :: ls' => l ++ NL ++ join_nl ls'
  end.

(** [''.join(ls)] *)
Definition join (ls : list string) : string := fold_right append "" ls.

(** [s.lstrip()], [s.rstrip()], [s.strip()] *)
Fixpoint lstrip (s : string) : string :=
  match s with
  | String c s' => if is_space c then lstrip s' else s
  | EmptyString => ""
  end.

Fixpoint rstrip (s : string) : string :=
  match s with
  | EmptyString => ""
  | String c s' =>
      match rstrip s' with
      | EmptyString => if is_space c then "" else String c ""
      | t => String c t
      end
  end.

Definition strip (s : string) : string := rstrip (lstrip s).

(** [s.startswith(p)] *)
Definition startswith (p s : string) : bool := String.prefix p s.

(** [s.endswith(p)] *)
Definition endswith (p s : string) : bool :=
  let n := String.length s in
  let m := String.length p in
  (Nat.leb m n && String.eqb (substring (n - m) m s) p)%bool.

End Str.
Import Str.

(** ** The fragment of Python's [re] that compressor.py uses

    A pattern is matched by backtracking; [matches r st] lists the states
    in which a match of [r] started in [st] can end, in the order in which
    the backtracking search reaches them, so the head of the list is the
    match that [re] reports.  Every quantifier of the source applies to a
    one-character atom, so [Rep] repeats a character class. *)

Module Re.

Inductive regex : Type :=
| Chr (p : ascii -> bool)            (* a literal or a class: one character *)
| Bol                                (* [^] under (?m) *)
| Eol                                (* [$] under (?m) *)
| Seq (r1 r2 : regex)
| Rep (greedy : bool) (lo : nat) (hi : option nat) (p : ascii -> bool)
                                     (* [p{lo,hi}], [p*], [p+], [p?], [p*?] *)
| NotAhead (r : regex)               (* [(?!r)] *)
| Group (r : regex).                 (* [(r)] *)

(** A position in the subject: the character before it, the text from it
    on, and the groups captured so far. *)
Record mstate : Type := MState {
  prev : option ascii;
  rest : string;
  caps : list string
}.

(** The states after 0, 1, 2, ... characters of the leading run of [p]. *)
Fixpoint runs (p : ascii -> bool) (pr : option ascii) (s : string)
         (cs : list string) : list mstate :=
  MState pr s cs ::
  match s with
  | String c s' => if p c then runs p (Some c) s' cs else []
  | EmptyString => []
  end.

Definition bounded (lo : nat) (hi : option nat) (l : list mstate) : list mstate :=
  skipn lo (match hi with Some h => firstn (S h) l | None => l end).

(** The text between two positions of one subject. *)
Definition consumed (from to : string) : string :=
  substring 0 (String.length from - String.length to) from.

Fixpoint matches (r : regex) (st : mstate) : list mstate :=
  match r with
  | Chr p =>
      match rest st with
      | String c s' => if p c then [MState (Some c) s' (caps st)] else []
      | EmptyString => []
      end
  | Bol =>
      match prev st with
      | None => [st]
      | Some c => if is_nl c then [st] else []
      end
  | Eol =>
      match rest st with
      | EmptyString => [st]
      | String c _ => if is_nl c then [st] else []
      end
  | Seq r1 r2 => flat_map (matches r2) (matches r1 st)
  | Rep greedy lo hi p =>
      let l := bounded lo hi (runs p (prev st) (rest st) (caps st)) in
      if greedy then rev l else l
  | NotAhead r =>
      match matches r st with
      | [] => [st]
      | _ :: _ => []
      end
  | Group r =>
      map (fun st' => MState (prev st') (rest st')
                             (caps st' ++ [consumed (rest st) (rest st')]))
          (matches r st)
  end.

(** The match that [re] finds at a position: its groups and its length. *)
Definition match_at (r : regex) (pr : option ascii) (s : string)
  : option (list string * nat) :=
  match matches r (MState pr s []) with
  | m :: _ => Some (caps m, (String.length s - String.length (rest m))%nat)
  | [] => None
  end.

(** [re.sub(r, repl, s)], [repl] a function of the groups of the match.
    The scan goes left to right; after a match of [n] characters the next
    [n - 1] positions are skipped.  No pattern of compressor.py matches the
    empty string; an empty match is passed over. *)
Fixpoint sub_loop (r : regex) (repl : list string -> string)
         (pr : option ascii) (s : string) (skip : nat) : string :=
  match s with
  | EmptyString => ""
  | String c s' =>
      match skip with
      | S k => sub_loop r repl (Some c) s' k
      | O =>
          match match_at r pr s with
          | Some (groups, S k) => repl groups ++ sub_loop r repl (Some c) s' k
          | _ => String c (sub_loop r repl (Some c) s' 0)
          end
      end
  end.

Definition sub (r : regex) (repl : list string -> string) (s : string) : string :=
  sub_loop r repl None s 0.

(** [re.sub(r, t, s)] with a replacement text that has no back-reference. *)
Definition sub_text (r : regex) (t : string) (s : string) : string :=
  sub r (fun _ => t) s.

Definition cons_char (c : ascii) (ps : list string) : list string :=
  match ps with
  | p :: ps' => String c p :: ps'
  | [] => [String c ""]
  end.

(** [re.split(r, s)]: the pieces between the matches, each match leaving
    its groups between two pieces. *)
Fixpoint split_loop (r : regex) (pr : option ascii) (s : string) (skip : nat)
  : list string :=
  match s with
  | EmptyString => [""]
  | String c s' =>
      match skip with
      | S k => split_loop r (Some c) s' k
      | O =>
          match match_at r pr s with
          | Some (groups, S k) => "" :: groups ++ split_loop r (Some c) s' k
          | _ => cons_char c (split_loop r (Some c) s' 0)
          end
      end
  end.

Definition split (r : regex) (s : string) : list string := split_loop r None s 0.

(** Pattern syntax. *)
Definition lit (c : ascii) : regex := Chr (Ascii.eqb c).
Definition lit_i (c : ascii) : regex := Chr (fun x => Ascii.eqb (lower x) (lower c)).
Definition star (p : ascii -> bool) : regex := Rep true 0 None p.
Definition plus (p : ascii -> bool) : regex := Rep true 1 None p.
Definition lazy_star (p : ascii -> bool) : regex := Rep false 0 None p.
Definition at_least (n : nat) (p : ascii -> bool) : regex := Rep true n None p.
Definition opt (p : ascii -> bool) : regex := Rep true 0 (Some 1%nat) p.

(** A literal text, and the same under IGNORECASE. *)
Fixpoint text (s : string) : regex :=
  match s with
  | EmptyString => Rep true 0 (Some 0%nat) is_any
  | String c EmptyString => lit c
  | String c s' => Seq (lit c) (text s')
  end.

Fixpoint text_i (s : string) : regex :=
  match s with
  | EmptyString => Rep true 0 (Some 0%nat) is_any
  | String c EmptyString => lit_i c
  | String c s' => Seq (lit_i c) (text_i s')
  end.

End Re.

(** ** compressor.py *)

Module Compressor.
Import Re.

(** [TokenCompressor.stats] *)
Record stats : Type := mkStats {
  original_chars : Z;
  compressed_chars : Z;
  calls : Z
}.

(** The fields of a [TokenCompressor]. *)
Record TokenCompressor : Type := mkCompressor {
  level : Z;
  st : stats
}.

(** [TokenCompressor.__init__] *)
Definition init (level : Z) : TokenCompressor :=
  mkCompressor level (mkStats 0 0 0).

Definition add_original (n : Z) (t : TokenCompressor) : TokenCompressor :=
  mkCompressor (level t)
    (mkStats (original_chars (st t) + n) (compressed_chars (st t)) (calls (st t))).
Definition add_compressed (n : Z) (t : TokenCompressor) : TokenCompressor :=
  mkCompressor (level t)
    (mkStats (original_chars (st t)) (compressed_chars (st t) + n) (calls (st t))).
Definition incr_calls (t : TokenCompressor) : TokenCompressor :=
  mkCompressor (level t)
    (mkStats (original_chars (st t)) (compressed_chars (st t)) (calls (st t) + 1)).

(** *** The patterns *)

Definition backticks : regex := text "```".

(** [\n{3,}] *)
Definition re_blank_lines : regex := at_least 3 is_nl.
(** [[ \t]+\n] *)
Definition re_trailing_ws : regex := Seq (plus is_blank) (lit nl).
(** [(```[\s\S]*?```)] *)
Definition re_fenced : regex :=
  Group (Seq backticks (Seq (lazy_star is_any) backticks)).
(** [  +], two spaces or more *)
Definition re_spaces : regex := Seq (lit " ") (plus (Ascii.eqb " ")).
(** [(?m)^\s*//.*$\n?] *)
Definition re_slash_comment : regex :=
  Seq Bol (Seq (star is_space) (Seq (text "//")
    (Seq (star is_dot) (Seq Eol (opt is_nl))))).
(** [(?m)^\s*#(?!!).*$\n?] *)
Definition re_hash_comment : regex :=
  Seq Bol (Seq (star is_space) (Seq (Seq (lit "#") (NotAhead (lit "!")))
    (Seq (star is_dot) (Seq Eol (opt is_nl))))).
(** [\n{2,}] *)
Definition re_empty_lines : regex := at_least 2 is_nl.
(** Three backticks, group 1 [\w*], a newline, group 2 [[\s\S]*?], three
    backticks. *)
Definition re_code_block : regex :=
  Seq backticks (Seq (Group (star is_word)) (Seq (lit nl)
    (Seq (Group (lazy_star is_any)) backticks))).

(** *** The passes *)

(** [parts[i] = f(parts[i])] for [i] in [range(0, len(parts), 2)] *)
Fixpoint map_even (f : string -> string) (parts : list string) : list string :=
  match parts with
  | [] => []
  | [p] => [f p]
  | p :: q :: parts' => f p :: q :: map_even f parts'
  end.

(** [TokenCompressor._normalize_whitespace] *)
Definition _normalize_whitespace (text : string) : string :=
  let text := sub_text re_blank_lines (NL ++ NL) text in
  let text := sub_text re_trailing_ws NL text in
  let parts := split re_fenced text in
  join (map_even (sub_text re_spaces " ") parts).

(** The two comment passes of [compress_code]. *)
Definition strip_comments (code : string) : string :=
  let code := sub_text re_slash_comment "" code in
  sub_text re_hash_comment "" code.

(** [compress_code], the replacement function of [_compress_code_blocks];
    [groups] holds group 1 and group 2 of the match. *)
Definition compress_code (groups : list string) : string :=
  let lang := nth 0 groups "" in
  let code := nth 1 groups "" in
  let code := strip_comments code in
  let code := sub_text re_empty_lines NL code in
  let code := sub_text re_trailing_ws NL code in
  "```" ++ lang ++ NL ++ strip code ++ NL ++ "```".

(** [TokenCompressor._compress_code_blocks] *)
Definition _compress_code_blocks (text : string) : string :=
  sub re_code_block compress_code text.

(** [abbrevs] of [_abbreviate_patterns] *)
Definition abbrevs : list (string * string) :=
  [ ("Please note that ", "");
    ("It is important to note that ", "");
    ("As mentioned earlier, ", "");
    ("In order to ", "To ");
    ("Due to the fact that ", "Because ");
    ("At this point in time", "Now");
    ("In the event that ", "If ");
    ("For the purpose of ", "For ");
    ("With regard to ", "About ");
    ("In the context of ", "In ") ].

(** [TokenCompressor._abbreviate_patterns] *)
Definition _abbreviate_patterns (text : string) : string :=
  fold_left (fun t pr => sub_text (text_i (fst pr)) (snd pr) t) abbrevs text.

Section WithMd5.
(** [md5_8 s] stands for [hashlib.md5(s.encode()).hexdigest()[:8]]. *)
Variable md5_8 : string -> string.

(** One turn of the loop of [_deduplicate_blocks]. *)
Inductive action : Type :=
| Replaced (block_hash block : string)
    (* the window was seen before: the marker stands for its three lines *)
| Recorded (block_hash block line : string)
    (* the window enters [seen]; its first line is kept *)
| Kept (line : string).
    (* the line is kept, [seen] is as it was *)

(** The line that a turn appends to [result_lines]. *)
Definition emitted (a : action) : string :=
  match a with
  | Replaced h _ => "[... same as above (" ++ h ++ ") ...]"
  | Recorded _ _ l => l
  | Kept l => l
  end.

(** [h in seen] *)
Definition seen_mem (h : string) (seen : list string) : bool :=
  existsb (String.eqb h) seen.

(** The [while] loop of [_deduplicate_blocks], from index [i] on: [lines]
    is [lines[i:]], and [seen] holds the keys of the dict [seen]. *)
Fixpoint dedup_loop (seen : list string) (lines : list string) : list action :=
  match lines with
  | [] => []
  | l1 :: tl =>
      match tl with
      | l2 :: l3 :: rest =>
          let block := join_nl [l1; l2; l3] in
          let block_hash := md5_8 block in
          if (seen_mem block_hash seen && (100 <? len block))%bool then
            Replaced block_hash block :: dedup_loop seen rest
          else if 100 <? len block then
            Recorded block_hash block l1 :: dedup_loop (block_hash :: seen) tl
          else Kept l1 :: dedup_loop seen tl
      | _ => Kept l1 :: dedup_loop seen tl
      end
  end.

(** [TokenCompressor._deduplicate_blocks] *)
Definition _deduplicate_blocks (text : string) : string :=
  let lines := split_nl text in
  if Z.of_nat (length lines) <? 20 then text
  else join_nl (map emitted (dedup_loop [] lines)).

(** [TokenCompressor._compress_text] *)
Definition _compress_text (level : Z) (text : string) : string :=
  let result := _normalize_whitespace text in
  let result :=
    if 2 <=? level then _deduplicate_blocks (_compress_code_blocks result)
    else result in
  if 3 <=? level then _abbreviate_patterns result else result.

(** [for x in v]: the elements of a list, the keys of a dict, the
    characters of a string; anything else is not iterable. *)
Definition py_iter (v : json) : result (list json) :=
  match v with
  | JArr l => Ok l
  | JObj d => Ok (map (fun kv => JStr (fst kv)) d)
  | JStr s => Ok (map (fun c => JStr (String c "")) (list_ascii_of_string s))
  | JNull | JBool _ | JInt _ | JFloat _ => Raise TypeError
  end.

(** [py_dict v] stands for [dict(v)] when [v] is not a dict; Python builds
    a dict from a sequence of pairs ([dict('')] is the empty dict) and
    raises [TypeError] or [ValueError] on anything else.  The keys of the
    result are written as [json.dumps] renders them. *)
Variable py_dict : json -> result (dict json).

(** A computation on the compressor: it may raise, and it leaves a
    compressor behind either way. *)
Definition M (A : Type) : Type := TokenCompressor -> result A * TokenCompressor.

Definition ret {A : Type} (a : A) : M A := fun t => (Ok a, t).
Definition raise {A : Type} (e : exn) : M A := fun t => (Raise e, t).
Definition bind {A B : Type} (m : M A) (k : A -> M B) : M B :=
  fun t => match m t with
           | (Ok a, t') => k a t'
           | (Raise e, t') => (Raise e, t')
           end.
Definition tick (f : TokenCompressor -> TokenCompressor) : M unit :=
  fun t => (Ok tt, f t).

(** [for x in l: ys.append(f(x))] *)
Fixpoint for_each {A B : Type} (f : A -> M B) (l : list A) : M (list B) :=
  match l with
  | [] => ret []
  | x :: l' => bind (f x) (fun y => bind (for_each f l') (fun ys => ret (y :: ys)))
  end.

(** [self._compress_text(original)] with the two updates of [self.stats]
    around it; [original] is any object taken out of a message. *)
Definition compress_counted (original : json) : M string :=
  match original with
  | JStr text =>
      bind (tick (add_original (len text))) (fun _ =>
      fun t =>
        let new := _compress_text (level t) text in
        (Ok new, add_compressed (len new) t))
  | JArr l =>
      (* [len] answers, then [re.sub] refuses the list *)
      bind (tick (add_original (Z.of_nat (length l)))) (fun _ => raise TypeError)
  | JObj d =>
      bind (tick (add_original (Z.of_nat (length d)))) (fun _ => raise TypeError)
  | JNull | JBool _ | JInt _ | JFloat _ => raise TypeError
  end.

(** The body of the loop over [msg["content"]]. *)
Definition compress_part (part : json) : M json :=
  match part with
  | JObj p =>
      match dict_get "type" p with
      | Some (JStr ty) =>
          if String.eqb ty "text" then
            match dict_get "text" p with
            | None => raise KeyError
            | Some original =>
                bind (compress_counted original) (fun new =>
                ret (JObj (dict_set "text" (JStr new) p)))
            end
          else ret part
      | _ => ret part
      end
  | _ => ret part
  end.

(** The body of the loop over [messages]. *)
Definition compress_message (msg : json) : M json :=
  match msg with
  | JObj m =>
      match dict_get "content" m with
      | Some (JStr original) =>
          bind (compress_counted (JStr original)) (fun new =>
          ret (JObj (dict_set "content" (JStr new) m)))
      | Some (JArr parts) =>
          bind (for_each compress_part parts) (fun new_parts =>
          ret (JObj (dict_set "content" (JArr new_parts) m)))
      | _ => ret (JObj m)
      end
  | _ =>
      (* [dict(msg)] of something that is not a dict; ["content" in msg] is
         then false, whatever [msg] is *)
      match py_dict msg with
      | Ok d => ret (JObj d)
      | Raise e => raise e
      end
  end.

(** [TokenCompressor.compress_messages] *)
Definition compress_messages (messages : json) : M json :=
  fun t =>
    if level t =? 0 then (Ok messages, t)
    else
      bind (match py_iter messages with Ok l => ret l | Raise e => raise e end)
        (fun msgs =>
      bind (for_each compress_message msgs) (fun compressed =>
      bind (tick incr_calls) (fun _ =>
      ret (JArr compressed)))) t.
End WithMd5.

End Compressor.

(** ** stats.py *)

Module Stats.

(** One entry of [StatsTracker._requests]. *)
Record entry : Type := mkEntry {
  path : string;
  duration : Z;
  cached : bool;
  streamed : bool;
  status : Z;
  ts : Z
}.

(** [l[-n:]] for a positive [n] *)
Definition last_n {A : Type} (n : nat) (l : list A) : list A :=
  skipn (length l - n) l.

(** [StatsTracker.record]; [now] is the reading of [time.time()]. *)
Definition record (requests : list entry) (path : string) (duration : Z)
           (cached streamed : bool) (status now : Z) : list entry :=
  let requests :=
    (requests ++ [mkEntry path duration cached streamed status now])%list in
  if 10000 <? Z.of_nat (length requests) then last_n 5000 requests else requests.

End Stats.

(** ** server.py *)

Module Server.
Import Compressor.

(** What [proxy] reads of the inbound [Request]. *)
Record Request : Type := mkRequest {
  method : string;
  headers : dict string;
  body : string
}.

(** What [proxy] reads of the upstream [httpx.Response]: [json_] is the
    outcome of [resp.json()], [chunks] what [aiter_bytes()] yields. *)
Record Upstream : Type := mkUpstream {
  status_code : Z;
  up_headers : dict string;
  content : string;
  json_ : result json;
  chunks : list string
}.

(** What [proxy] hands back to the framework; an exception that leaves
    [proxy] is answered by the framework with status 500. *)
Inductive response : Type :=
| JSONResponse (content : json)
| StreamingResponse (chunks : list string) (status_code : Z)
    (headers : dict string) (media_type : option string)
| Response (content : string) (status_code : Z)
    (headers : dict string) (media_type : option string)
| Unhandled (e : exn).

(** The calls that [proxy] makes on the cache, the compressor and the
    upstream client, in order. *)
Inductive event : Type :=
| CacheGet (request_data : dict json)
| CachePut (request_data : dict json) (response_data : json)
| CompressMessages (messages : json)
| Send (stream : bool) (method url : string) (headers : dict string)
    (content : string).

Definition is_cache_event (e : event) : bool :=
  match e with
  | CacheGet _ | CachePut _ _ => true
  | _ => false
  end.

(** The objects that [create_app] builds and that every call of [proxy]
    shares. *)
Record App : Type := mkApp {
  compressor : TokenCompressor;
  cache : Cache.ResponseCache;
  stats : list Stats.entry
}.

(** The readings of [time.time()], one for each call site that a run of
    [proxy] can reach. *)
Record clock : Type := mkClock {
  t0 : Z;            (* line 64 *)
  t_get_check : Z;   (* in [cache.get], the TTL test *)
  t_get_touch : Z;   (* in [cache.get], the refresh *)
  t_put : Z;         (* in [cache.put] *)
  t_end : Z;         (* the argument [duration] of [stats.record] *)
  t_record : Z       (* in [stats.record] *)
}.

Section WithEnvironment.
(** [hashlib], [dict] and [json] of the Python library. *)
Variable digest : json -> string.
Variable md5_8 : string -> string.
Variable py_dict : json -> result (dict json).
(** [json.loads] on the bytes of a body. *)
Variable loads : string -> result json.
(** [json.dumps(data).encode()] *)
Variable dumps : json -> string.
(** The upstream server behind [httpx.AsyncClient]: the answer to a
    request, or an error of the transport. *)
Variable upstream : forall (stream : bool) (method url : string)
  (headers : dict string) (content : string), result Upstream.
(** [target], the upstream base URL without its trailing slashes. *)
Variable target : string.

(** [for h in hs: headers.pop(h, None)] *)
Definition pop_all (hs : list string) (headers : dict string) : dict string :=
  fold_left (fun d h => dict_del h d) hs headers.

(** How the [try] block of lines 80-101 ends. *)
Inductive prepared : Type :=
| Answered (r : response)                      (* a [return] or an escaping exception *)
| Forward (is_streaming : json) (body : string). (* control reaches line 103 *)

(** Lines 95-98, with the [except] clause of line 100 around them. *)
Definition compress_request (a : App) (data : dict json) (is_streaming : json)
           (body : string) : prepared * App * list event :=
  if dict_mem "messages" data then
    let messages := get_default "messages" JNull data in
    match compress_messages md5_8 py_dict messages (compressor a) with
    | (Ok compressed, t) =>
        (Forward is_streaming (dumps (JObj (dict_set "messages" compressed data))),
         mkApp t (cache a) (stats a), [CompressMessages messages])
    | (Raise e, t) =>
        ((if catches [JSONDecodeError; KeyError] e
          then Forward is_streaming body
          else Answered (Unhandled e)),
         mkApp t (cache a) (stats a), [CompressMessages messages])
    end
  else (Forward is_streaming body, a, []).

(** Lines 75-101. *)
Definition prepare (a : App) (clk : clock) (request : Request) (path : string)
  : prepared * App * list event :=
  let is_chat :=
    (endswith "/chat/completions" path && String.eqb (method request) "POST")%bool in
  if (is_chat && negb (String.eqb (body request) ""))%bool then
    match loads (body request) with
    | Raise e =>
        ((if catches [JSONDecodeError; KeyError] e
          then Forward (JBool false) (body request)
          else Answered (Unhandled e)), a, [])
    | Ok (JObj data) =>
        let is_streaming := get_default "stream" (JBool false) data in
        if (negb (truthy is_streaming) && Cache.enabled (cache a))%bool then
          let '(cached, c) :=
            Cache.get digest (cache a) (t_get_check clk) (t_get_touch clk) data in
          let a := mkApp (compressor a) c (stats a) in
          match cached with
          | JNull =>
              let '(p, a, evs) := compress_request a data is_streaming (body request) in
              (p, a, CacheGet data :: evs)
          | _ =>
              (Answered (JSONResponse cached),
               mkApp (compressor a) c
                 (Stats.record (stats a) path (t_end clk - t0 clk) true false 200
                               (t_record clk)),
               [CacheGet data])
          end
        else compress_request a data is_streaming (body request)
    | Ok _ =>
        (* [data.get]: only a dict has the attribute *)
        (Answered (Unhandled AttributeError), a, [])
    end
  else (Forward (JBool false) (body request), a, []).

(** Lines 143-150: the store after a buffered exchange. *)
Definition store_response (a : App) (clk : clock) (request : Request)
           (resp : Upstream) : result unit * App * list event :=
  let skip_or_raise (e : exn) : result unit :=
    if catches [JSONDecodeError; ValueError] e then Ok tt else Raise e in
  match json_ resp with
  | Raise e => (skip_or_raise e, a, [])
  | Ok resp_data =>
      match loads (body request) with
      | Raise e => (skip_or_raise e, a, [])
      | Ok (JObj original_data) =>
          let '(r, c) := Cache.put digest (cache a) (t_put clk) original_data resp_data in
          ((match r with Ok _ => Ok tt | Raise e => skip_or_raise e end),
           mkApp (compressor a) c (stats a),
           [CachePut original_data resp_data])
      | Ok _ => (Raise AttributeError, a, [])
      end
  end.

(** Lines 103-169. *)
Definition forward (a : App) (clk : clock) (request : Request) (path : string)
           (is_streaming : json) (body : string) : response * App * list event :=
  let url := target ++ "/" ++ path in
  let headers := pop_all ["host"; "content-length"; "transfer-encoding"]
                         (headers request) in
  let is_chat :=
    (endswith "/chat/completions" path && String.eqb (method request) "POST")%bool in
  let sent := Send (truthy is_streaming) (method request) url headers body in
  match upstream (truthy is_streaming) (method request) url headers body with
  | Raise e => (Unhandled e, a, [sent])
  | Ok resp =>
      if truthy is_streaming then
        (StreamingResponse (chunks resp) (status_code resp) (up_headers resp)
                           (dict_get "content-type" (up_headers resp)),
         mkApp (compressor a) (cache a)
           (Stats.record (stats a) path (t_end clk - t0 clk) false true 200
                         (t_record clk)),
         [sent])
      else
        let '(r, a, evs) :=
          if (is_chat && (status_code resp =? 200) && Cache.enabled (cache a))%bool
          then store_response a clk request resp
          else (Ok tt, a, []) in
        match r with
        | Raise e => (Unhandled e, a, sent :: evs)
        | Ok _ =>
            (Response (content resp) (status_code resp)
               (pop_all ["content-encoding"; "transfer-encoding"; "content-length"]
                        (up_headers resp))
               (dict_get "content-type" (up_headers resp)),
             mkApp (compressor a) (cache a)
               (Stats.record (stats a) path (t_end clk - t0 clk) false false
                             (status_code resp) (t_record clk)),
             sent :: evs)
        end
  end.

(** [proxy]: the response, the shared objects after the call, and the
    calls made on the cache, the compressor and the upstream. *)
Definition proxy (a : App) (clk : clock) (request : Request) (path : string)
  : response * App * list event :=
  match prepare a clk request path with
  | (Answered r, a, evs) => (r, a, evs)
  | (Forward is_streaming body, a, evs) =>
      let '(r, a, evs') := forward a clk request path is_streaming body in
      (r, a, (evs ++ evs')%list)
  end.
End WithEnvironment.

(** The three components of a run of [proxy]. *)
Definition response_of (run : response * App * list event) : response :=
  fst (fst run).
Definition app_after (run : response * App * list event) : App :=
  snd (fst run).
Definition calls_of (run : response * App * list event) : list event :=
  snd run.

End Server.

(* ================================================================== *)
(** * Part II. Properties *)
(* ================================================================== *)

(** ** Dictionaries *)

Module DictFacts.

Section Facts.
Context {V : Type}.
Implicit Types (d : dict V) (k : string) (v : V).

Lemma get_set_same k v d : dict_get k (dict_set k v d) = Some v.
Proof.
  induction d as [|[k' v'] d IH]; simpl.
  - now rewrite String.eqb_refl.
  - destruct (String.eqb k k') eqn:E; simpl; rewrite E; auto.
Qed.

Lemma get_set_other k k' v d :
  k <> k' -> dict_get k' (dict_set k v d) = dict_get k' d.
Proof.
  intros Hne. induction d as [|[k0 v0] d IH]; simpl.
  - destruct (String.eqb k' k) eqn:E; auto.
    apply String.eqb_eq in E. congruence.
  - destruct (String.eqb k k0) eqn:E; simpl.
    + apply String.eqb_eq in E. subst k0.
      destruct (String.eqb k' k) eqn:E'; auto.
      apply String.eqb_eq in E'. congruence.
    + now rewrite IH.
Qed.

Lemma get_del_other k k' d :
  k <> k' -> dict_get k' (dict_del k d) = dict_get k' d.
Proof.
  intros Hne. induction d as [|[k0 v0] d IH]; simpl; auto.
  destruct (String.eqb k k0) eqn:E; simpl.
  - apply String.eqb_eq in E. subst k0.
    destruct (String.eqb k' k) eqn:E'; auto.
    apply String.eqb_eq in E'. congruence.
  - now rewrite IH.
Qed.

Lemma get_none_not_in k d : dict_get k d = None <-> ~ In k (keys d).
Proof.
  induction d as [|[k0 v0] d IH]; simpl.
  - tauto.
  - destruct (String.eqb k k0) eqn:E.
    + apply String.eqb_eq in E. subst. split; [discriminate | tauto].
    + apply String.eqb_neq in E. rewrite IH. split; intros H.
      * intros [->|Hin]; tauto.
      * tauto.
Qed.

Lemma get_some_in k v d : dict_get k d = Some v -> In (k, v) d.
Proof.
  induction d as [|[k0 v0] d IH]; simpl; [discriminate|].
  destruct (String.eqb k k0) eqn:E.
  - apply String.eqb_eq in E. subst. intros [= ->]. now left.
  - auto.
Qed.

Lemma in_get_some k v d : dict_wf d -> In (k, v) d -> dict_get k d = Some v.
Proof.
  unfold dict_wf. induction d as [|[k0 v0] d IH]; simpl; [tauto|].
  intros Hnd [Heq|Hin]; inversion Hnd as [|? ? Hnot Hnd']; subst.
  - injection Heq as -> ->. now rewrite String.eqb_refl.
  - destruct (String.eqb k k0) eqn:E; auto.
    apply String.eqb_eq in E. subst k0.
    exfalso. apply Hnot. change k with (fst (k, v)). now apply in_map.
Qed.

Lemma get_del_same k d : dict_wf d -> dict_get k (dict_del k d) = None.
Proof.
  unfold dict_wf. induction d as [|[k0 v0] d IH]; simpl; auto.
  intros Hnd. inversion Hnd as [|? ? Hnot Hnd']; subst.
  destruct (String.eqb k k0) eqn:E; simpl.
  - apply String.eqb_eq in E. subst. now apply get_none_not_in.
  - rewrite E. auto.
Qed.

Lemma mem_true k d : dict_mem k d = true <-> exists v, dict_get k d = Some v.
Proof.
  unfold dict_mem. destruct (dict_get k d); split; eauto; try discriminate.
  intros [? ?]. discriminate.
Qed.

Lemma mem_false k d : dict_mem k d = false <-> dict_get k d = None.
Proof.
  unfold dict_mem. destruct (dict_get k d); split; auto; discriminate.
Qed.

Lemma in_keys_mem k d : In k (keys d) -> dict_mem k d = true.
Proof.
  intros Hin. destruct (dict_mem k d) eqn:E; auto.
  apply mem_false, get_none_not_in in E. contradiction.
Qed.

Lemma length_set k v d :
  length (dict_set k v d) =
  if dict_mem k d then length d else S (length d).
Proof.
  unfold dict_mem. induction d as [|[k0 v0] d IH]; simpl; auto.
  destruct (String.eqb k k0); simpl; auto.
  rewrite IH. destruct (dict_get k d); auto.
Qed.

Lemma length_del k d :
  dict_mem k d = true -> S (length (dict_del k d)) = length d.
Proof.
  unfold dict_mem. induction d as [|[k0 v0] d IH]; simpl; [discriminate|].
  destruct (String.eqb k k0); simpl; auto.
Qed.

Lemma length_del_le k d : (length (dict_del k d) <= length d)%nat.
Proof.
  induction d as [|[k0 v0] d IH]; simpl; auto.
  destruct (String.eqb k k0); simpl; lia.
Qed.

Lemma keys_del_incl k d : incl (keys (dict_del k d)) (keys d).
Proof.
  induction d as [|[k0 v0] d IH]; simpl; [apply incl_refl|].
  destruct (String.eqb k k0); simpl.
  - apply incl_tl, incl_refl.
  - intros x [->|Hx]; [now left | right; now apply IH].
Qed.

Lemma wf_del k d : dict_wf d -> dict_wf (dict_del k d).
Proof.
  unfold dict_wf. induction d as [|[k0 v0] d IH]; simpl; auto.
  intros Hnd. inversion Hnd as [|? ? Hnot Hnd']; subst.
  destruct (String.eqb k k0); simpl; auto.
  constructor; auto. intros Hin. apply Hnot. now apply (keys_del_incl k d).
Qed.

Lemma keys_set k v d :
  keys (dict_set k v d) = if dict_mem k d then keys d else (keys d ++ [k])%list.
Proof.
  unfold dict_mem. induction d as [|[k0 v0] d IH]; simpl; auto.
  destruct (String.eqb k k0) eqn:E; simpl; auto.
  rewrite IH. destruct (dict_get k d); auto.
Qed.

Lemma wf_set k v d : dict_wf d -> dict_wf (dict_set k v d).
Proof.
  unfold dict_wf. intros Hnd. rewrite keys_set.
  destruct (dict_mem k d) eqn:E; auto.
  apply mem_false, get_none_not_in in E.
  apply NoDup_rev in Hnd. rewrite <- (rev_involutive (keys d ++ [k])).
  apply NoDup_rev. rewrite rev_app_distr. simpl.
  constructor; auto. now rewrite <- in_rev.
Qed.
End Facts.

End DictFacts.

(** ** cache.py *)

Module CacheFacts.
Import Cache DictFacts.

(** The request can be stored: its temperature, 1.0 when the field is
    absent, is [None] or compares not greater than zero. *)
Definition storable (request_data : dict json) : Prop :=
  positive (get_default "temperature" (JFloat float_one) request_data) = Ok false.

(** The temperature is the number zero. *)
Definition is_zero (v : json) : Prop :=
  v = JInt 0 \/ exists sign, v = JFloat (S754_zero sign).

(** The representation invariant of the cache. *)
Definition wf (c : ResponseCache) : Prop := dict_wf (_cache c).

Lemma zero_storable request_data v :
  dict_get "temperature" request_data = Some v -> is_zero v ->
  storable request_data.
Proof.
  unfold storable, get_default. intros -> [->|[sign ->]]; auto.
Qed.

Lemma min_from_least best d :
  exists e, In (min_from best d, e) (best :: d) /\
            forall k' e', In (k', e') (best :: d) -> ts e <= ts e'.
Proof.
  revert best. induction d as [|x d IH]; intros [kb eb]; simpl.
  - exists eb. split; [now left|].
    intros k' e' [[= <- <-]|[]]. lia.
  - destruct x as [kx ex]. simpl.
    destruct (ts ex <? ts eb) eqn:E.
    + apply Z.ltb_lt in E. destruct (IH (kx, ex)) as (e & Hin & Hle).
      exists e. split; [now right|].
      assert (ts e <= ts ex) by (apply (Hle kx ex); now left).
      intros k' e' [[= <- <-]|Hin']; [lia | now apply (Hle k' e')].
    + apply Z.ltb_ge in E. destruct (IH (kb, eb)) as (e & Hin & Hle).
      exists e. split.
      * destruct Hin as [Hin|Hin]; [now left | now right; right].
      * assert (ts e <= ts eb) by (apply (Hle kb eb); now left).
        intros k' e' [[= <- <-]|[[= <- <-]|Hin']]; try lia.
        apply (Hle k' e'). now right.
Qed.

Lemma oldest_key_least d :
  d <> [] ->
  exists k e, oldest_key d = Ok k /\ In (k, e) d /\
              forall k' e', In (k', e') d -> ts e <= ts e'.
Proof.
  destruct d as [|x d]; [congruence|]. intros _. simpl.
  destruct (min_from_least x d) as (e & Hin & Hle). eauto.
Qed.

(** Where the scan stops: at [best], when no later entry has a smaller
    timestamp, or at the first entry whose timestamp is smaller than that
    of [best] and of every entry before it, and not greater than any
    after it. *)
Lemma min_from_first best d :
  (min_from best d = fst best /\
   forall x, In x d -> ts (snd best) <= ts (snd x)) \/
  (exists before e after,
      d = (before ++ (min_from best d, e) :: after)%list /\
      ts e < ts (snd best) /\
      (forall x, In x before -> ts e < ts (snd x)) /\
      (forall x, In x after -> ts e <= ts (snd x))).
Proof.
  revert best. induction d as [|x d IH]; intros best; simpl.
  - left. split; [reflexivity | intros x []].
  - destruct (ts (snd x) <? ts (snd best)) eqn:E.
    + apply Z.ltb_lt in E. right.
      destruct (IH x) as [[Hk Hle]|(before & e & after & Hd & Hlt & Hb & Ha)].
      * exists [], (snd x), d. rewrite Hk. simpl.
        repeat split; auto; [now destruct x | intros y []].
      * exists (x :: before), e, after. simpl. rewrite <- Hd.
        repeat split; auto; [lia|].
        intros y [<-|Hy]; [lia | auto].
    + apply Z.ltb_ge in E.
      destruct (IH best) as [[Hk Hle]|(before & e & after & Hd & Hlt & Hb & Ha)].
      * left. split; [exact Hk|]. intros y [<-|Hy]; [lia | auto].
      * right. exists (x :: before), e, after. simpl. rewrite <- Hd.
        repeat split; auto.
        intros y [<-|Hy]; [lia | auto].
Qed.

(** [min] returns the first key, in the order of the dict, among those of
    the smallest timestamp. *)
Lemma oldest_key_first d :
  d <> [] ->
  exists k e before after,
    oldest_key d = Ok k /\
    d = (before ++ (k, e) :: after)%list /\
    (forall k' e', In (k', e') before -> ts e < ts e') /\
    (forall k' e', In (k', e') after -> ts e <= ts e').
Proof.
  destruct d as [|x d]; [congruence|]. intros _. simpl.
  destruct (min_from_first x d)
    as [[Hk Hle]|(before & e & after & Hd & Hlt & Hb & Ha)].
  - exists (fst x), (snd x), [], d. rewrite Hk. simpl.
    repeat split; auto; [now destruct x | intros k' e' [] |].
    intros k' e' Hin. exact (Hle _ Hin).
  - exists (min_from x d), e, (x :: before), after. simpl. rewrite <- Hd.
    repeat split; auto.
    + intros k' e' [->|Hin]; [exact Hlt | exact (Hb _ Hin)].
    + intros k' e' Hin. exact (Ha _ Hin).
Qed.

Section WithDigest.
Variable digest : json -> string.

Local Abbreviation get := (get digest).
Local Abbreviation put := (put digest).
Local Abbreviation _make_key := (_make_key digest).

(** A disabled cache answers [None] and is left as it was. *)
Lemma get_disabled c n1 n2 r :
  enabled c = false -> get c n1 n2 r = (JNull, c).
Proof. unfold Cache.get. now intros ->. Qed.

Lemma put_disabled c n r p :
  enabled c = false -> put c n r p = (Ok tt, c).
Proof. unfold Cache.put. now intros ->. Qed.

(** A request that is not [storable] leaves the cache as it was. *)
Lemma put_not_storable c n r p :
  ~ storable r -> snd (put c n r p) = c.
Proof.
  unfold storable, Cache.put. intros Hns.
  destruct (negb (enabled c)); auto.
  destruct (positive _) as [[|]|e] eqn:E; auto.
  now elim Hns.
Qed.

(** The two shapes of a storing [put]. *)
Lemma put_evicting c n r p victim :
  enabled c = true -> storable r ->
  (max_size c <=? Z.of_nat (length (_cache c))) = true ->
  dict_mem (_make_key r) (_cache c) = false ->
  oldest_key (_cache c) = Ok victim ->
  put c n r p =
  (Ok tt,
   mkCache (enabled c) (ttl c) (max_size c)
     (dict_set (_make_key r) (Entry p n) (dict_del victim (_cache c)))
     (hits c) (misses c) (evictions c + 1)).
Proof.
  unfold storable, Cache.put. intros He Hs Hfull Hmem Hold.
  rewrite Hs, Hfull, Hmem, Hold.
  unfold set_cache, incr_evictions. simpl. now rewrite He.
Qed.

Lemma put_plain c n r p :
  enabled c = true -> storable r ->
  ((max_size c <=? Z.of_nat (length (_cache c)))
   && negb (dict_mem (_make_key r) (_cache c)))%bool = false ->
  put c n r p =
  (Ok tt,
   mkCache (enabled c) (ttl c) (max_size c)
     (dict_set (_make_key r) (Entry p n) (_cache c))
     (hits c) (misses c) (evictions c)).
Proof.
  unfold storable, Cache.put. intros He Hs Hcond.
  rewrite Hs, Hcond. unfold set_cache. simpl. now rewrite He.
Qed.

(** No call changes the configuration. *)
Lemma get_config c n1 n2 r :
  let c' := snd (get c n1 n2 r) in
  enabled c' = enabled c /\ ttl c' = ttl c /\ max_size c' = max_size c.
Proof.
  unfold Cache.get. destruct (negb (enabled c)); simpl; auto.
  destruct (dict_get _ _); simpl; auto.
  destruct (_ >? _); simpl; auto.
Qed.

Lemma put_config c n r p :
  let c' := snd (put c n r p) in
  enabled c' = enabled c /\ ttl c' = ttl c /\ max_size c' = max_size c.
Proof.
  unfold Cache.put. destruct (negb (enabled c)); simpl; auto.
  destruct (positive _) as [[|]|e]; simpl; auto.
  destruct (_ && _)%bool; simpl; auto.
  destruct (oldest_key _); simpl; auto.
Qed.

(** [get] never lets the store grow, and keeps its keys distinct. *)
Lemma get_length c n1 n2 r :
  (length (_cache (snd (get c n1 n2 r))) <= length (_cache c))%nat.
Proof.
  unfold Cache.get. destruct (negb (enabled c)); simpl; auto.
  destruct (dict_get _ _) eqn:G; simpl; auto.
  destruct (_ >? _); simpl.
  - apply length_del_le.
  - rewrite length_set. unfold dict_mem. now rewrite G.
Qed.

Lemma get_wf c n1 n2 r : wf c -> wf (snd (get c n1 n2 r)).
Proof.
  unfold wf, Cache.get. intros Hwf. destruct (negb (enabled c)); simpl; auto.
  destruct (dict_get _ _); simpl; auto.
  destruct (_ >? _); simpl; [now apply wf_del | now apply wf_set].
Qed.

Lemma put_wf c n r p : wf c -> wf (snd (put c n r p)).
Proof.
  unfold wf, Cache.put. intros Hwf. destruct (negb (enabled c)); simpl; auto.
  destruct (positive _) as [[|]|e]; simpl; auto.
  destruct (_ && _)%bool; simpl; [|now apply wf_set].
  destruct (oldest_key _); simpl; auto.
  now apply wf_set, wf_del.
Qed.

(** [put] keeps the store within a capacity that is not negative. *)
Lemma put_length c n r p :
  0 <= max_size c ->
  Z.of_nat (length (_cache c)) <= max_size c ->
  Z.of_nat (length (_cache (snd (put c n r p)))) <= max_size c.
Proof.
  unfold Cache.put. intros Hm Hle. destruct (negb (enabled c)); simpl; auto.
  destruct (positive _) as [[|]|e]; simpl; auto.
  destruct (max_size c <=? _) eqn:Efull; simpl.
  - apply Z.leb_le in Efull.
    destruct (dict_mem (_make_key r) (_cache c)) eqn:Emem; simpl.
    + rewrite length_set, Emem. lia.
    + destruct (oldest_key (_cache c)) as [victim|e] eqn:Eold; simpl; auto.
      rewrite length_set.
      assert (Hv : dict_mem victim (_cache c) = true).
      { destruct (_cache c) as [|x d]; [discriminate|].
        injection Eold as <-.
        destruct (min_from_least x d) as (e & Hin & _).
        apply in_keys_mem.
        change (min_from x d) with (fst (min_from x d, e)). now apply in_map. }
      pose proof (length_del _ _ Hv) as Hlen.
      destruct (dict_mem _ (dict_del _ _)); lia.
  - apply Z.leb_gt in Efull. rewrite length_set.
    destruct (dict_mem _ _); lia.
Qed.
End WithDigest.

End CacheFacts.

Module CacheClaims.
Import Cache DictFacts CacheFacts.

(** A request and a payload for the examples: the request of the test
    suite, once with temperature 0 and once without a temperature. *)
Definition hi_messages : json :=
  JArr [JObj [("role", JStr "user"); ("content", JStr "hi")]].
Definition request_zero : dict json :=
  [("model", JStr "gpt-4"); ("messages", hi_messages); ("temperature", JInt 0)].
Definition request_bare : dict json :=
  [("model", JStr "gpt-4"); ("messages", hi_messages)].
Definition payload : json := JObj [("id", JInt 7)].
(** A stand-in for the hash in the examples. *)
Definition toy_digest (v : json) : string :=
  match v with
  | JObj (_ :: (_, JArr (JObj (_ :: (_, JStr s) :: _) :: _)) :: _) => s
  | _ => ""
  end.

Section WithDigest.
Variable digest : json -> string.

Local Abbreviation get := (get digest).
Local Abbreviation put := (put digest).
Local Abbreviation _make_key := (_make_key digest).
Local Abbreviation run := (run digest).

Lemma step_config c o :
  enabled (step digest c o) = enabled c /\ max_size (step digest c o) = max_size c.
Proof.
  destruct o as [n1 n2 r|n r p|]; simpl.
  - destruct (get_config digest c n1 n2 r) as (? & ? & ?). auto.
  - destruct (put_config digest c n r p) as (? & ? & ?). auto.
  - auto.
Qed.

Lemma step_length c o :
  0 <= max_size c ->
  Z.of_nat (length (_cache c)) <= max_size c ->
  Z.of_nat (length (_cache (step digest c o))) <= max_size c.
Proof.
  intros Hm Hle. destruct o as [n1 n2 r|n r p|]; simpl.
  - pose proof (get_length digest c n1 n2 r). lia.
  - now apply put_length.
  - lia.
Qed.

Lemma run_length ops : forall c,
  0 <= max_size c ->
  Z.of_nat (length (_cache c)) <= max_size c ->
  Z.of_nat (length (_cache (run c ops))) <= max_size c.
Proof.
  induction ops as [|o ops IH]; intros c Hm Hle; simpl; auto.
  destruct (step_config c o) as [_ Hsize].
  rewrite <- Hsize. apply IH; rewrite Hsize; auto.
  now apply step_length.
Qed.

Lemma step_wf c o : wf c -> wf (step digest c o).
Proof.
  intros Hwf. destruct o as [n1 n2 r|n r p|]; simpl.
  - now apply get_wf.
  - now apply put_wf.
  - constructor.
Qed.

Lemma run_wf ops : forall c, wf c -> wf (run c ops).
Proof.
  induction ops as [|o ops IH]; intros c Hwf; simpl; auto.
  apply IH. now apply step_wf.
Qed.

(** The store after a [put] that is not skipped holds the payload under
    the key of the request, stamped with the time of the [put]. *)
Lemma put_stores c n r p :
  enabled c = true -> 1 <= max_size c -> storable r ->
  fst (put c n r p) = Ok tt /\
  dict_get (_make_key r) (_cache (snd (put c n r p))) = Some (Entry p n).
Proof.
  intros He Hm Hs.
  destruct ((max_size c <=? Z.of_nat (length (_cache c)))
            && negb (dict_mem (_make_key r) (_cache c)))%bool eqn:Hcond.
  - apply andb_true_iff in Hcond. destruct Hcond as [Hfull Hnew].
    apply negb_true_iff in Hnew.
    assert (Hne : _cache c <> []).
    { intros Hnil. rewrite Hnil in Hfull. apply Z.leb_le in Hfull.
      simpl in Hfull. lia. }
    destruct (oldest_key_least _ Hne) as (victim & e & Hold & _).
    rewrite (put_evicting digest c n r p _ He Hs Hfull Hnew Hold). simpl.
    split; auto. apply get_set_same.
  - rewrite (put_plain digest c n r p He Hs Hcond). simpl.
    split; auto. apply get_set_same.
Qed.

(** C1, as amended.  In an enabled cache of capacity at least 1, a request
    whose temperature field is present and is the number zero is stored by
    [put], and a [get] of the same request whose clock reading is within
    the TTL of the [put] returns exactly the stored payload.  A request
    without a temperature field is treated as one of temperature 1.0: like
    every request whose temperature compares greater than zero, it is not
    stored, and [put] leaves the cache as it was. *)
Theorem put_then_get_within_ttl c :
  enabled c = true -> 1 <= max_size c ->
  (forall r p v n n1 n2,
      dict_get "temperature" r = Some v -> is_zero v ->
      n1 - n <= ttl c ->
      fst (put c n r p) = Ok tt /\
      fst (get (snd (put c n r p)) n1 n2 r) = p) /\
  (forall r p n,
      dict_get "temperature" r = None \/
      (exists v, dict_get "temperature" r = Some v /\ gt_zero v = Ok true) ->
      put c n r p = (Ok tt, c)).
Proof.
  intros He Hm. split.
  - intros r p v n n1 n2 Htemp Hzero Httl.
    pose proof (zero_storable _ _ Htemp Hzero) as Hs.
    destruct (put_stores c n r p He Hm Hs) as [Hok Hget].
    split; auto.
    destruct (put_config digest c n r p) as (He' & Httl' & _).
    unfold Cache.get. rewrite He', He. simpl. rewrite Hget. simpl.
    rewrite Httl'.
    destruct (n1 - n >? ttl c) eqn:E; auto.
    apply Z.gtb_lt in E. lia.
  - intros r p n Hr. unfold Cache.put. rewrite He. simpl.
    unfold get_default.
    destruct Hr as [->|(v & -> & Hv)].
    + reflexivity.
    + unfold positive. destruct v; try discriminate; now rewrite Hv.
Qed.

(** C3.  ([wf] says that the keys of the store are pairwise distinct, as
    the keys of a Python dict are; [run_wf] shows that every call keeps it
    so.)  In an enabled cache that holds an entry for the request, a [get]
    whose clock reading is more than the TTL after the entry's timestamp
    returns [None], deletes that entry and no other, and adds one to the
    miss counter; otherwise it returns the stored payload, sets the
    entry's timestamp to the second clock reading, and adds one to the hit
    counter.  The other counter and the other entries stay as they were. *)
Theorem get_purges_expired_refreshes_hit c n1 n2 r e :
  wf c -> enabled c = true ->
  dict_get (_make_key r) (_cache c) = Some e ->
  let v := fst (get c n1 n2 r) in
  let c' := snd (get c n1 n2 r) in
  (forall k, k <> _make_key r -> dict_get k (_cache c') = dict_get k (_cache c)) /\
  evictions c' = evictions c /\
  (n1 - ts e > ttl c ->
     v = JNull /\
     dict_get (_make_key r) (_cache c') = None /\
     S (length (_cache c')) = length (_cache c) /\
     misses c' = misses c + 1 /\ hits c' = hits c) /\
  (n1 - ts e <= ttl c ->
     v = data e /\
     dict_get (_make_key r) (_cache c') = Some (Entry (data e) n2) /\
     length (_cache c') = length (_cache c) /\
     hits c' = hits c + 1 /\ misses c' = misses c).
Proof.
  intros Hwf He Hget. unfold Cache.get. rewrite He, Hget. simpl.
  destruct (n1 - ts e >? ttl c) eqn:E; simpl.
  - apply Z.gtb_lt in E. split; [|split; [|split]]; auto.
    + intros k Hk. now apply get_del_other.
    + intros _. repeat split; auto.
      * now apply get_del_same.
      * apply length_del. apply mem_true. eauto.
    + lia.
  - assert (n1 - ts e <= ttl c).
    { destruct (Z.gtb_spec (n1 - ts e) (ttl c)); [discriminate | lia]. }
    split; [|split; [|split]]; auto.
    + intros k Hk. now apply get_set_other.
    + lia.
    + intros _. repeat split; auto.
      * apply get_set_same.
      * rewrite length_set. unfold dict_mem. now rewrite Hget.
Qed.

(** C10.  A disabled cache answers every [get] with [None] and every [put]
    with nothing, and either call leaves the whole cache, the store and the
    three counters, exactly as it was. *)
Theorem disabled_cache_is_inert c :
  enabled c = false ->
  (forall n1 n2 r,
      fst (get c n1 n2 r) = JNull /\ snd (get c n1 n2 r) = c) /\
  (forall n r p,
      fst (put c n r p) = Ok tt /\ snd (put c n r p) = c).
Proof.
  intros He. split; intros.
  - now rewrite get_disabled.
  - now rewrite put_disabled.
Qed.

(** A disabled cache never holds an entry. *)
Lemma run_disabled_empty ops : forall c,
  enabled c = false -> _cache c = [] -> _cache (run c ops) = [].
Proof.
  induction ops as [|o ops IH]; intros c He Hnil; simpl; auto.
  destruct (step_config c o) as [He' _].
  apply IH; [congruence|].
  destruct o as [n1 n2 r|n r p|]; simpl; auto.
  - now rewrite get_disabled.
  - now rewrite put_disabled.
Qed.

Lemma run_config ops : forall c,
  enabled (run c ops) = enabled c /\ max_size (run c ops) = max_size c.
Proof.
  induction ops as [|o ops IH]; intros c; simpl; auto.
  destruct (IH (step digest c o)) as [-> ->]. apply step_config.
Qed.

(** C2, as amended.  Let the cache be constructed with a capacity [m] of
    at least 1.  After every sequence of calls of [get], [put] and [clear]
    the store holds at most [m] entries.  When it holds exactly [m] and a
    request that [put] does not skip has a key that is not in the store,
    [put] deletes exactly one entry, one whose timestamp is not greater
    than any timestamp in the store and, where several entries have that
    timestamp, the first of them in the order of insertion: every entry
    that stands before it in the store has a greater timestamp.  [put]
    adds one to the eviction counter and inserts the new entry; every
    other entry stays as it was. *)
Theorem capacity_bound_and_single_eviction m enabled0 ttl0 ops :
  1 <= m ->
  let c := run (init enabled0 ttl0 m) ops in
  Z.of_nat (length (_cache c)) <= m /\
  (forall n r p,
      Z.of_nat (length (_cache c)) = m ->
      storable r ->
      dict_get (_make_key r) (_cache c) = None ->
      let c' := snd (put c n r p) in
      exists victim e,
        dict_get victim (_cache c) = Some e /\
        (forall k' e', dict_get k' (_cache c) = Some e' -> ts e <= ts e') /\
        (exists before after,
            _cache c = (before ++ (victim, e) :: after)%list /\
            forall k' e', In (k', e') before -> ts e < ts e') /\
        fst (put c n r p) = Ok tt /\
        dict_get victim (_cache c') = None /\
        dict_get (_make_key r) (_cache c') = Some (Entry p n) /\
        (forall k, k <> victim -> k <> _make_key r ->
                   dict_get k (_cache c') = dict_get k (_cache c)) /\
        Z.of_nat (length (_cache c')) = m /\
        evictions c' = evictions c + 1).
Proof.
  intros Hm c.
  destruct (run_config ops (init enabled0 ttl0 m)) as [Hen Hsize].
  fold c in Hen, Hsize. simpl in Hen, Hsize.
  assert (Hwf : wf c) by (apply run_wf; constructor).
  split.
  - pose proof (run_length ops (init enabled0 ttl0 m)) as H.
    simpl in H. apply H; simpl; lia.
  - intros n r p Hfull Hs Hnew c'.
    assert (He : enabled c = true).
    { destruct enabled0; [congruence|].
      pose proof (run_disabled_empty ops (init false ttl0 m) eq_refl eq_refl) as Hnil.
      fold c in Hnil. rewrite Hnil in Hfull. simpl in Hfull. lia. }
    assert (Hne : _cache c <> []).
    { intros Hnil. rewrite Hnil in Hfull. simpl in Hfull. lia. }
    destruct (oldest_key_first _ Hne)
      as (victim & e & before & after & Hold & Hstore & Hbefore & Hafter).
    assert (Hin : In (victim, e) (_cache c)).
    { rewrite Hstore. apply in_or_app. right. now left. }
    assert (Hleast : forall k' e', In (k', e') (_cache c) -> ts e <= ts e').
    { intros k' e' Hk. rewrite Hstore in Hk. apply in_app_or in Hk.
      destruct Hk as [Hk|[[= <- <-]|Hk]]; [|lia|eauto].
      specialize (Hbefore _ _ Hk). lia. }
    assert (Hv : dict_get victim (_cache c) = Some e) by now apply in_get_some.
    assert (Hvk : victim <> _make_key r) by congruence.
    assert (Hfull' : (max_size c <=? Z.of_nat (length (_cache c))) = true).
    { apply Z.leb_le. lia. }
    assert (Hmem : dict_mem (_make_key r) (_cache c) = false) by now apply mem_false.
    exists victim, e. subst c'.
    rewrite (put_evicting digest c n r p _ He Hs Hfull' Hmem Hold). simpl.
    split; [exact Hv|].
    split; [intros k' e' Hk; apply (Hleast k'); now apply get_some_in|].
    split; [exists before, after; split; [exact Hstore | exact Hbefore]|].
    repeat split; auto.
    + rewrite get_set_other by congruence. now apply get_del_same.
    + apply get_set_same.
    + intros k Hk1 Hk2. rewrite get_set_other by congruence.
      now apply get_del_other.
    + rewrite length_set.
      assert (Hdel : dict_mem (_make_key r) (dict_del victim (_cache c)) = false).
      { apply mem_false. rewrite get_del_other by auto. exact Hnew. }
      rewrite Hdel.
      pose proof (length_del victim (_cache c)) as Hlen.
      rewrite (proj2 (mem_true _ _)) in Hlen by eauto.
      specialize (Hlen eq_refl). lia.
Qed.
End WithDigest.

(** *** Instances and failing inputs *)

Definition cache_200 : ResponseCache := init true 300 200.
Definition cache_0 : ResponseCache := init true 300 0.
Definition cache_off : ResponseCache := init false 300 200.
(** The cache after the request of the test suite was stored at time 0. *)
Definition cache_hi : ResponseCache :=
  mkCache true 300 200 [("hi", Entry payload 0)] 0 0 0.
(** The three requests of [test_cache_eviction]. *)
Definition request_msg (content : string) : dict json :=
  [("model", JStr "gpt-4");
   ("messages", JArr [JObj [("role", JStr "user"); ("content", JStr content)]]);
   ("temperature", JInt 0)].

Lemma put_then_get_within_ttl_witness :
  fst (get toy_digest
         (snd (put toy_digest cache_200 10 request_zero payload)) 20 21
         request_zero) = payload.
Proof.
  assert (He : enabled cache_200 = true) by reflexivity.
  assert (Hm : 1 <= max_size cache_200) by (simpl; lia).
  destruct (put_then_get_within_ttl toy_digest cache_200 He Hm) as [Hround _].
  apply (Hround request_zero payload (JInt 0) 10 20 21).
  - reflexivity.
  - now left.
  - simpl. lia.
Defined.

(** C1 fails as stated.  A request without a temperature field is not
    stored by an enabled cache, whatever the hash function: the [get] that
    follows the [put] returns [None], not the payload.  And in a cache of
    capacity 0 the [put] of a request of temperature 0 raises [ValueError]
    ([min] of an empty dict) and stores nothing. *)
Lemma absent_temperature_is_not_stored :
  dict_get "temperature" request_bare = None /\
  (forall digest,
      snd (put digest cache_200 10 request_bare payload) = cache_200 /\
      fst (get digest (snd (put digest cache_200 10 request_bare payload))
             20 21 request_bare) <> payload) /\
  (forall digest,
      fst (put digest cache_0 10 request_zero payload) = Raise ValueError /\
      fst (get digest (snd (put digest cache_0 10 request_zero payload))
             20 21 request_zero) <> payload).
Proof.
  split; [reflexivity|]. split; intros digest; split;
    try reflexivity; discriminate.
Qed.

Lemma capacity_bound_and_single_eviction_witness :
  let c := run toy_digest (init true 60 2)
             [OpPut 1 (request_msg "msg0") (JInt 0);
              OpPut 1 (request_msg "msg1") (JInt 1)] in
  let c' := snd (put toy_digest c 3 (request_msg "msg2") (JInt 2)) in
  exists victim e,
    dict_get victim (_cache c) = Some e /\
    (forall k' e', dict_get k' (_cache c) = Some e' -> ts e <= ts e') /\
    (exists before after,
        _cache c = (before ++ (victim, e) :: after)%list /\
        forall k' e', In (k', e') before -> ts e < ts e') /\
    fst (put toy_digest c 3 (request_msg "msg2") (JInt 2)) = Ok tt /\
    dict_get victim (_cache c') = None /\
    dict_get (_make_key toy_digest (request_msg "msg2")) (_cache c') =
      Some (Entry (JInt 2) 3) /\
    (forall k, k <> victim -> k <> _make_key toy_digest (request_msg "msg2") ->
               dict_get k (_cache c') = dict_get k (_cache c)) /\
    Z.of_nat (length (_cache c')) = 2 /\
    evictions c' = evictions c + 1.
Proof.
  assert (Hm : 1 <= 2) by lia.
  destruct (capacity_bound_and_single_eviction toy_digest 2 true 60
              [OpPut 1 (request_msg "msg0") (JInt 0);
               OpPut 1 (request_msg "msg1") (JInt 1)] Hm) as [_ Hevict].
  apply (Hevict 3 (request_msg "msg2") (JInt 2)); reflexivity.
Defined.

(** C2 fails as stated at capacity 0.  The new cache holds 0 = [max_size]
    entries; the [put] of a request of temperature 0, whose key is new,
    evicts nothing and leaves the eviction counter at 0: [min] of the empty
    store raises [ValueError] and the cache is left as it was. *)
Lemma capacity_zero_put_evicts_nothing :
  Z.of_nat (length (_cache cache_0)) = max_size cache_0 /\
  storable request_zero /\
  (forall digest,
      dict_get (_make_key digest request_zero) (_cache cache_0) = None /\
      put digest cache_0 10 request_zero payload = (Raise ValueError, cache_0) /\
      evictions (snd (put digest cache_0 10 request_zero payload)) <>
        evictions cache_0 + 1).
Proof.
  split; [reflexivity|]. split; [reflexivity|].
  intros digest. repeat split. discriminate.
Qed.

Lemma get_purges_expired_refreshes_hit_witness :
  (fst (get toy_digest cache_hi 1000 1001 request_zero) = JNull /\
   _cache (snd (get toy_digest cache_hi 1000 1001 request_zero)) = [] /\
   misses (snd (get toy_digest cache_hi 1000 1001 request_zero)) = 1) /\
  (fst (get toy_digest cache_hi 100 101 request_zero) = payload /\
   dict_get "hi" (_cache (snd (get toy_digest cache_hi 100 101 request_zero)))
     = Some (Entry payload 101) /\
   hits (snd (get toy_digest cache_hi 100 101 request_zero)) = 1).
Proof.
  assert (Hwf : wf cache_hi).
  { repeat constructor. simpl. tauto. }
  assert (He : enabled cache_hi = true) by reflexivity.
  assert (Hg : dict_get (_make_key toy_digest request_zero) (_cache cache_hi)
               = Some (Entry payload 0)) by reflexivity.
  split.
  - destruct (get_purges_expired_refreshes_hit toy_digest cache_hi 1000 1001
                request_zero (Entry payload 0) Hwf He Hg) as (_ & _ & Hexp & _).
    assert (Hgt : 1000 - ts (Entry payload 0) > ttl cache_hi) by (simpl; lia).
    destruct (Hexp Hgt) as (Hv & _ & _ & Hmiss & _).
    split; [exact Hv | split; [reflexivity | exact Hmiss]].
  - destruct (get_purges_expired_refreshes_hit toy_digest cache_hi 100 101
                request_zero (Entry payload 0) Hwf He Hg) as (_ & _ & _ & Hhit).
    assert (Hle : 100 - ts (Entry payload 0) <= ttl cache_hi) by (simpl; lia).
    destruct (Hhit Hle) as (Hv & Hstore & _ & Hhits & _).
    split; [exact Hv | split; [exact Hstore | exact Hhits]].
Defined.

Lemma disabled_cache_is_inert_witness :
  (fst (get toy_digest cache_off 1 2 request_zero) = JNull /\
   snd (get toy_digest cache_off 1 2 request_zero) = cache_off) /\
  (fst (put toy_digest cache_off 1 request_zero payload) = Ok tt /\
   snd (put toy_digest cache_off 1 request_zero payload) = cache_off).
Proof.
  assert (He : enabled cache_off = false) by reflexivity.
  destruct (disabled_cache_is_inert toy_digest cache_off He) as [Hget Hput].
  split; [apply Hget | apply Hput].
Defined.

End CacheClaims.

(** ** compressor.py: the messages *)

Module MessageFacts.
Import Compressor DictFacts.

(** [d'] is [d] but for the value under [key]: the same keys in the same
    order, and the same value under every other key. *)
Definition same_but (key : string) (d d' : dict json) : Prop :=
  keys d' = keys d /\
  forall k, k <> key -> dict_get k d' = dict_get k d.

(** [part.get("type") == "text"] *)
Definition is_text_part (p : dict json) : bool :=
  match dict_get "type" p with
  | Some (JStr ty) => String.eqb ty "text"
  | _ => false
  end.

(** What compression may do to a part: a dict of type "text" keeps all its
    fields but ["text"]; anything else is handed on as it is. *)
Definition part_frame (part part' : json) : Prop :=
  match part with
  | JObj p =>
      if is_text_part p
      then exists p', part' = JObj p' /\ same_but "text" p p'
      else part' = part
  | _ => part' = part
  end.

(** What compression may do to a message that is a dict: it keeps all its
    fields but ["content"]; a content that is a list keeps its length and
    changes part by part; a content that is neither a string nor a list is
    kept. *)
Definition message_frame (msg msg' : json) : Prop :=
  match msg with
  | JObj m =>
      exists m', msg' = JObj m' /\ same_but "content" m m' /\
      match dict_get "content" m with
      | Some (JStr _) => exists s', dict_get "content" m' = Some (JStr s')
      | Some (JArr parts) =>
          exists parts', dict_get "content" m' = Some (JArr parts') /\
                         Forall2 part_frame parts parts'
      | _ => dict_get "content" m' = dict_get "content" m
      end
  | _ => True
  end.

Lemma same_but_refl key d : same_but key d d.
Proof. split; auto. Qed.

Lemma same_but_set key v d :
  dict_mem key d = true -> same_but key d (dict_set key v d).
Proof.
  intros Hmem. split.
  - now rewrite keys_set, Hmem.
  - intros k Hk. apply get_set_other. congruence.
Qed.

Lemma part_frame_refl part : part_frame part part.
Proof.
  destruct part; simpl; auto.
  destruct (is_text_part d); auto. eexists. split; eauto using same_but_refl.
Qed.

Lemma message_frame_refl msg : message_frame msg msg.
Proof.
  destruct msg as [| | | | | |m]; simpl; auto.
  exists m. split; auto. split; [apply same_but_refl|].
  destruct (dict_get "content" m) as [[]|]; eauto.
  eexists. split; eauto.
  induction l; constructor; auto using part_frame_refl.
Qed.

Section WithLibrary.
Variable md5_8 : string -> string.
Variable py_dict : json -> result (dict json).

Local Abbreviation compress_counted := (compress_counted md5_8).
Local Abbreviation compress_part := (compress_part md5_8).
Local Abbreviation compress_message := (compress_message md5_8 py_dict).
Local Abbreviation compress_messages := (compress_messages md5_8 py_dict).

Lemma bind_ok {A B : Type} (m : M A) (k : A -> M B) t b t' :
  bind m k t = (Ok b, t') ->
  exists a t1, m t = (Ok a, t1) /\ k a t1 = (Ok b, t').
Proof.
  unfold bind. destruct (m t) as [[a|e] t1]; [eauto | discriminate].
Qed.

Lemma for_each_ok {A B : Type} (f : A -> M B) (R : A -> B -> Prop) :
  (forall x y t t', f x t = (Ok y, t') -> R x y) ->
  forall l ys t t', for_each f l t = (Ok ys, t') -> Forall2 R l ys.
Proof.
  intros Hf. induction l as [|x l IH]; simpl; intros ys t t' H.
  - injection H as <- _. constructor.
  - apply bind_ok in H. destruct H as (y & t1 & Hy & H).
    apply bind_ok in H. destruct H as (ys' & t2 & Hys & H).
    injection H as <- _. constructor; eauto.
Qed.

(** The level never changes. *)
Lemma compress_counted_level v t :
  level (snd (compress_counted v t)) = level t.
Proof. destruct v; reflexivity. Qed.

Lemma compress_part_frame part part' t t' :
  compress_part part t = (Ok part', t') -> part_frame part part'.
Proof.
  destruct part as [| | | | | |p]; simpl;
    try (intros [= <- _]; reflexivity).
  unfold is_text_part.
  destruct (dict_get "type" p) as [[| | | |ty| |]|];
    try (intros [= <- _]; reflexivity).
  destruct (String.eqb ty "text"); [|intros [= <- _]; reflexivity].
  destruct (dict_get "text" p) as [original|] eqn:Htext; [|discriminate].
  intros H. apply bind_ok in H. destruct H as (new & t1 & _ & H).
  injection H as <- _. eexists. split; eauto.
  apply same_but_set. unfold dict_mem. now rewrite Htext.
Qed.

Lemma compress_message_frame msg msg' t t' :
  compress_message msg t = (Ok msg', t') -> message_frame msg msg'.
Proof.
  destruct msg as [| | | | | |m]; simpl; auto.
  destruct (dict_get "content" m) as [content|] eqn:Hc.
  - assert (Hmem : dict_mem "content" m = true)
      by (unfold dict_mem; now rewrite Hc).
    destruct content as [| | | |original|parts|];
      try (intros [= <- _]; exists m; split; auto;
           split; [apply same_but_refl | now rewrite Hc]).
    + intros H. apply bind_ok in H. destruct H as (new & t1 & _ & H).
      injection H as <- _. eexists. split; eauto.
      split; [now apply same_but_set|].
      rewrite get_set_same. eauto.
    + intros H. apply bind_ok in H. destruct H as (new_parts & t1 & Hparts & H).
      injection H as <- _. eexists. split; eauto.
      split; [now apply same_but_set|].
      rewrite get_set_same. eexists. split; eauto.
      eapply for_each_ok; [|exact Hparts].
      intros part0 part1 ? ?. apply compress_part_frame.
  - intros [= <- _]. exists m. split; auto.
    split; [apply same_but_refl | now rewrite Hc].
Qed.

Lemma compress_messages_frame msgs out t t' :
  compress_messages (JArr msgs) t = (Ok out, t') ->
  exists msgs', out = JArr msgs' /\ Forall2 message_frame msgs msgs'.
Proof.
  unfold Compressor.compress_messages.
  destruct (level t =? 0).
  - intros [= <- _]. exists msgs. split; auto.
    induction msgs; constructor; auto using message_frame_refl.
  - simpl. intros H. apply bind_ok in H. destruct H as (l & t1 & Hl & H).
    injection Hl as <- <-.
    apply bind_ok in H. destruct H as (compressed & t2 & Hc & H).
    apply bind_ok in H. destruct H as (? & t3 & _ & H).
    injection H as <- _. eexists. split; eauto.
    eapply for_each_ok; [|exact Hc].
    intros msg0 msg1 ? ?. apply compress_message_frame.
Qed.

(** Messages as the data model has them: every message is a dict, and in
    a content list every part of type "text" carries a string under
    ["text"]. *)
Definition well_formed_part (part : json) : Prop :=
  match part with
  | JObj p =>
      if is_text_part p then exists s, dict_get "text" p = Some (JStr s) else True
  | _ => True
  end.

Definition well_formed_message (msg : json) : Prop :=
  match msg with
  | JObj m =>
      match dict_get "content" m with
      | Some (JArr parts) => Forall well_formed_part parts
      | _ => True
      end
  | _ => False
  end.

Lemma for_each_total {A B : Type} (f : A -> M B) l :
  Forall (fun x => forall t, exists y t', f x t = (Ok y, t')) l ->
  forall t, exists ys t', for_each f l t = (Ok ys, t').
Proof.
  induction 1 as [|x l Hx _ IH]; intros t; simpl.
  - unfold ret. eauto.
  - unfold bind. destruct (Hx t) as (y & t1 & ->).
    destruct (IH t1) as (ys & t2 & ->). unfold ret. eauto.
Qed.

Lemma compress_part_total part t :
  well_formed_part part -> exists part' t', compress_part part t = (Ok part', t').
Proof.
  destruct part as [| | | | | |p]; simpl; unfold ret; eauto.
  unfold is_text_part.
  destruct (dict_get "type" p) as [[| | | |ty| |]|]; eauto.
  destruct (String.eqb ty "text"); eauto.
  intros [s ->]. simpl. unfold bind, tick, ret. simpl. eauto.
Qed.

Lemma compress_message_total msg t :
  well_formed_message msg ->
  exists msg' t', compress_message msg t = (Ok msg', t').
Proof.
  destruct msg as [| | | | | |m]; simpl; try contradiction.
  destruct (dict_get "content" m) as [[| | | |original|parts|]|];
    unfold ret; eauto.
  - intros _. unfold bind, tick, ret. simpl. eauto.
  - intros Hparts. unfold bind.
    destruct (for_each_total compress_part parts) with (t := t)
      as (new_parts & t1 & ->); eauto.
    eapply Forall_impl; [|exact Hparts].
    intros part Hpart t0. now apply compress_part_total.
Qed.

(** On well-formed messages [compress_messages] returns. *)
Lemma compress_messages_total msgs t :
  Forall well_formed_message msgs ->
  exists out t', compress_messages (JArr msgs) t = (Ok out, t').
Proof.
  intros Hmsgs. unfold Compressor.compress_messages.
  destruct (level t =? 0); eauto.
  simpl. unfold bind at 1. unfold ret at 1. unfold bind at 1.
  destruct (for_each_total compress_message msgs) with (t := t)
    as (compressed & t1 & ->).
  - eapply Forall_impl; [|exact Hmsgs].
    intros msg Hmsg t0. now apply compress_message_total.
  - unfold bind, tick, ret. eauto.
Qed.

(** C6.  At level 0 [compress_messages] returns its argument, whatever it
    is, and leaves the compressor, its counters included, as it was: no
    message is copied and no pass runs. *)
Theorem level_zero_is_passthrough (counters : stats) (messages : json) :
  compress_messages messages (mkCompressor 0 counters) =
  (Ok messages, mkCompressor 0 counters).
Proof. reflexivity. Qed.
End WithLibrary.

End MessageFacts.

(** ** server.py *)

Module ServerFacts.
Import Compressor Server DictFacts MessageFacts.

Section WithEnvironment.
Variable digest : json -> string.
Variable md5_8 : string -> string.
Variable py_dict : json -> result (dict json).
Variable loads : string -> result json.
Variable dumps : json -> string.
Variable upstream : forall (stream : bool) (method url : string)
  (headers : dict string) (content : string), result Upstream.
Variable target : string.

Local Abbreviation compress_request := (compress_request md5_8 py_dict dumps).
Local Abbreviation prepare := (prepare digest md5_8 py_dict loads dumps).
Local Abbreviation store_response := (store_response digest loads).
Local Abbreviation forward := (forward digest loads upstream target).
Local Abbreviation proxy :=
  (proxy digest md5_8 py_dict loads dumps upstream target).

(** The request is one that [proxy] parses: a POST to a chat path with a
    body that is not empty. *)
Definition parsed (request : Request) (path : string) : Prop :=
  endswith "/chat/completions" path = true /\
  method request = "POST" /\
  body request <> "".

Lemma parsed_guard request path :
  parsed request path ->
  (endswith "/chat/completions" path && String.eqb (method request) "POST"
   && negb (String.eqb (body request) ""))%bool = true.
Proof.
  intros (-> & -> & Hb). simpl.
  destruct (String.eqb_spec (body request) ""); [contradiction | reflexivity].
Qed.

(** The body that leaves lines 95-98 is the body that came in, or the
    serialization of the request with a new value under ["messages"]. *)
Definition rewritten (data : dict json) (old new : string) : Prop :=
  new = old \/
  exists data', new = dumps (JObj data') /\ same_but "messages" data data'.

Lemma compress_request_spec a data is_streaming body0 :
  let '(p, a', evs) := compress_request a data is_streaming body0 in
  cache a' = cache a /\
  (forall e, In e evs -> is_cache_event e = false) /\
  (forall e, In e evs -> exists m, e = CompressMessages m) /\
  match p with
  | Forward s b => s = is_streaming /\ rewritten data body0 b
  | Answered r => exists e, r = Unhandled e
  end.
Proof.
  unfold Server.compress_request.
  destruct (dict_mem "messages" data) eqn:Hmem.
  - destruct (compress_messages _ _ _ _) as [[compressed|e] t]; simpl.
    + repeat split; auto.
      * intros e [<-|[]]. reflexivity.
      * intros e [<-|[]]. eauto.
      * right. eexists. split; eauto. now apply same_but_set.
    + repeat split; auto.
      * intros e' [<-|[]]. reflexivity.
      * intros e' [<-|[]]. eauto.
      * destruct (catches _ e); [split; auto; now left | eauto].
  - simpl. repeat split; auto; try contradiction. now left.
Qed.

(** What [prepare] does when the body parses to a dict. *)
Lemma prepare_parsed a clk request path data :
  parsed request path ->
  loads (body request) = Ok (JObj data) ->
  let is_streaming := get_default "stream" (JBool false) data in
  let '(p, a', evs) := prepare a clk request path in
  (truthy is_streaming = true ->
     cache a' = cache a /\ forall e, In e evs -> is_cache_event e = false) /\
  (forall e, In e evs -> forall s m u h b, e <> Send s m u h b) /\
  match p with
  | Forward s b => s = is_streaming /\ rewritten data (body request) b
  | Answered r => True
  end.
Proof.
  intros Hp Hloads. apply parsed_guard in Hp.
  unfold Server.prepare. rewrite Hp, Hloads.
  set (is_streaming := get_default "stream" (JBool false) data).
  destruct (truthy is_streaming) eqn:Hs; simpl.
  - pose proof (compress_request_spec a data is_streaming (body request)) as H.
    destruct (compress_request _ _ _ _) as [[p a'] evs].
    destruct H as (Hc & Hev & Hcm & Hb).
    split; [auto|]. split.
    + intros e He. destruct (Hcm e He) as [m ->]. discriminate.
    + destruct p; auto.
  - destruct (Cache.enabled (cache a)).
    + destruct (Cache.get _ _ _ _ _) as [cached c].
      set (a1 := mkApp (compressor a) c (stats a)).
      pose proof (compress_request_spec a1 data is_streaming (body request)) as H.
      destruct (compress_request a1 _ _ _) as [[p a'] evs].
      destruct H as (Hc & Hev & Hcm & Hb).
      assert (Hmiss :
        (false = true ->
         cache a' = cache a /\
         forall e, In e (CacheGet data :: evs) -> is_cache_event e = false) /\
        (forall e, In e (CacheGet data :: evs) ->
                   forall s m u h b, e <> Send s m u h b) /\
        match p with
        | Forward s b => s = is_streaming /\ rewritten data (body request) b
        | Answered _ => True
        end).
      { split; [discriminate|]. split.
        - intros e [<-|He]; [discriminate|].
          destruct (Hcm e He) as [m ->]. discriminate.
        - destruct p; auto. }
      assert (Hhit :
        (false = true ->
         cache (mkApp (compressor a1) c
                  (Stats.record (stats a1) path (t_end clk - t0 clk) true false
                                200 (t_record clk))) = cache a /\
         forall e, In e [CacheGet data] -> is_cache_event e = false) /\
        (forall e, In e [CacheGet data] ->
                   forall s m u h b, e <> Send s m u h b) /\ True).
      { split; [discriminate|]. split; auto.
        intros e [<-|[]]. discriminate. }
      destruct cached; auto.
    + pose proof (compress_request_spec a data is_streaming (body request)) as H.
      destruct (compress_request _ _ _ _) as [[p a'] evs].
      destruct H as (Hc & Hev & Hcm & Hb).
      split; [discriminate|]. split.
      * intros e He. destruct (Hcm e He) as [m ->]. discriminate.
      * destruct p; auto.
Qed.

(** What a streaming [forward] does: one call upstream, no call on the
    cache. *)
Lemma forward_streaming a clk request path is_streaming b :
  truthy is_streaming = true ->
  let '(r, a', evs) := forward a clk request path is_streaming b in
  cache a' = cache a /\ forall e, In e evs -> is_cache_event e = false.
Proof.
  intros Hs. unfold Server.forward. rewrite Hs.
  destruct (upstream _ _ _ _ _); simpl; split; auto;
    intros ev [<-|[]]; reflexivity.
Qed.

(** [store_response] calls nothing but [cache.put]. *)
Lemma store_response_events a clk request resp :
  let '(r, a', evs) := store_response a clk request resp in
  forall e, In e evs -> exists d p, e = CachePut d p.
Proof.
  unfold Server.store_response.
  destruct (json_ resp) as [resp_data|e0]; [|intros e []].
  destruct (loads (body request)) as [[| | | | | |original]|e0];
    try (intros e []).
  destruct (Cache.put _ _ _ _ _) as [r c].
  intros e [<-|[]]. eauto.
Qed.

(** Every call upstream made by [forward] carries the body it was given. *)
Lemma forward_sends a clk request path is_streaming b :
  let '(r, a', evs) := forward a clk request path is_streaming b in
  forall s m u h b', In (Send s m u h b') evs -> b' = b.
Proof.
  unfold Server.forward.
  destruct (upstream _ _ _ _ _) as [resp|e0].
  - destruct (truthy is_streaming).
    + intros s m u h b' [[= _ _ _ _ <-]|[]]. reflexivity.
    + match goal with
      | |- context [if ?g then store_response a clk request resp else ?z] =>
          set (X := if g then store_response a clk request resp else z);
          assert (HX : let '(r, a', evs) := X in
                       forall e, In e evs -> exists d p, e = CachePut d p)
            by (subst X; destruct g;
                [apply store_response_events | intros e []])
      end.
      destruct X as [[r a'] evs].
      destruct r; intros s m u h b' [[= _ _ _ _ <-]|Hin]; auto;
        apply HX in Hin; destruct Hin as (d & p & Hd); discriminate.
  - intros s m u h b' [[= _ _ _ _ <-]|[]]. reflexivity.
Qed.
End WithEnvironment.

End ServerFacts.

Module ServerClaims.
Import Compressor Server DictFacts MessageFacts ServerFacts.

Section WithEnvironment.
Variable digest : json -> string.
Variable md5_8 : string -> string.
Variable py_dict : json -> result (dict json).
Variable loads : string -> result json.
Variable dumps : json -> string.
Variable upstream : forall (stream : bool) (method url : string)
  (headers : dict string) (content : string), result Upstream.
Variable target : string.

Local Abbreviation prepare := (prepare digest md5_8 py_dict loads dumps).
Local Abbreviation forward := (forward digest loads upstream target).
Local Abbreviation proxy :=
  (proxy digest md5_8 py_dict loads dumps upstream target).
Local Abbreviation compress_messages := (compress_messages md5_8 py_dict).

(** C4.  When the body of a chat request parses to a dict whose ["stream"]
    value is true (or any other value that Python takes for true), [proxy]
    calls neither [cache.get] nor [cache.put], and the cache, store and
    counters, is after the call what it was before: whatever the other
    fields of the request are, whatever the compressor does, and whatever
    the upstream answers. *)
Theorem streaming_request_never_touches_cache a clk request path data v :
  parsed request path ->
  loads (body request) = Ok (JObj data) ->
  dict_get "stream" data = Some v ->
  truthy v = true ->
  cache (app_after (proxy a clk request path)) = cache a /\
  forall e, In e (calls_of (proxy a clk request path)) ->
            is_cache_event e = false.
Proof.
  intros Hp Hloads Hstream Hv.
  assert (Hs : truthy (get_default "stream" (JBool false) data) = true).
  { unfold get_default. now rewrite Hstream. }
  unfold Server.proxy.
  pose proof (prepare_parsed digest md5_8 py_dict loads dumps a clk request path
                data Hp Hloads) as H.
  destruct (prepare a clk request path) as [[p a1] evs1].
  destruct H as (Hcache & _ & Hfwd).
  destruct (Hcache Hs) as [Hc1 Hev1].
  destruct p as [r|is_streaming b]; [auto|].
  destruct Hfwd as [-> _].
  pose proof (forward_streaming digest loads upstream target a1 clk request path
                (get_default "stream" (JBool false) data) b Hs) as H.
  destruct (forward a1 clk request path _ b) as [[r a2] evs2].
  destruct H as [Hc2 Hev2]. unfold app_after, calls_of. simpl.
  split; [congruence|].
  intros e He. apply in_app_or in He. destruct He; auto.
Qed.

(** The body that [prepare] hands on is the inbound body, or a rewriting
    of it. *)
Lemma prepare_body a clk request path data is_streaming b a' evs :
  loads (body request) = Ok (JObj data) ->
  prepare a clk request path = (Forward is_streaming b, a', evs) ->
  rewritten dumps data (body request) b /\
  forall e, In e evs -> forall s m u h b', e <> Send s m u h b'.
Proof.
  intros Hloads Hprep.
  destruct (endswith "/chat/completions" path && String.eqb (method request) "POST"
            && negb (String.eqb (body request) ""))%bool eqn:Hg.
  - assert (Hp : parsed request path).
    { apply andb_true_iff in Hg. destruct Hg as [Hg Hb].
      apply andb_true_iff in Hg. destruct Hg as [Hpath Hm].
      repeat split; auto.
      - now apply String.eqb_eq.
      - intros Heq. rewrite Heq in Hb. discriminate. }
    pose proof (prepare_parsed digest md5_8 py_dict loads dumps a clk request path
                  data Hp Hloads) as H.
    rewrite Hprep in H. destruct H as (_ & Hev & _ & Hb). auto.
  - unfold Server.prepare in Hprep. rewrite Hg in Hprep.
    injection Hprep as _ <- _ <-. split; [now left | intros e []].
Qed.

(** C7.  On messages that are dicts whose text parts carry a string,
    [compress_messages] returns.  When it returns, at any level, every message
    that is a dict comes back as a dict with the same keys in the same
    order and the same value under every key but ["content"]; a content
    list comes back part by part, a part whose type is not "text"
    unchanged and a part of type "text" with the same keys and the same
    value under every key but ["text"].  And when the body parses to a
    dict, every body that [proxy] sends upstream is the inbound body or the
    serialization of that dict with the same keys in the same order and
    the same value under every key but ["messages"]. *)
Theorem compression_rewrites_only_text :
  (forall t msgs,
      Forall well_formed_message msgs ->
      exists out t', compress_messages (JArr msgs) t = (Ok out, t')) /\
  (forall t msgs out t',
      compress_messages (JArr msgs) t = (Ok out, t') ->
      exists msgs', out = JArr msgs' /\ Forall2 message_frame msgs msgs') /\
  (forall a clk request path data,
      loads (body request) = Ok (JObj data) ->
      forall s m u h b,
        In (Send s m u h b) (calls_of (proxy a clk request path)) ->
        rewritten dumps data (body request) b).
Proof.
  split; [intros t msgs; apply compress_messages_total|].
  split.
  - intros t msgs out t'. apply compress_messages_frame.
  - intros a clk request path data Hloads. unfold calls_of, Server.proxy.
    destruct (prepare a clk request path) as [[p a1] evs1] eqn:Hprep.
    destruct p as [r|is_streaming b0]; simpl.
    + intros s m u h b Hin. exfalso.
      (* an answer without a forward: nothing was sent *)
      unfold Server.prepare in Hprep. rewrite Hloads in Hprep.
      destruct (_ && _)%bool; [|discriminate].
      pose proof (compress_request_spec md5_8 py_dict dumps) as Hcr.
      destruct (_ && Cache.enabled _)%bool.
      * destruct (Cache.get _ _ _ _ _) as [cached c].
        specialize (Hcr (mkApp (compressor a) c (stats a)) data
                        (get_default "stream" (JBool false) data) (body request)).
        destruct (compress_request _ _ _ _ _ _ _) as [[p a2] evs2].
        destruct Hcr as (_ & _ & Hcm & _).
        destruct cached; injection Hprep as _ _ <-;
          destruct Hin as [Hin|Hin]; try discriminate; try contradiction;
          destruct (Hcm _ Hin) as [x Hx]; discriminate.
      * specialize (Hcr a data (get_default "stream" (JBool false) data)
                        (body request)).
        destruct (compress_request _ _ _ _ _ _ _) as [[p a2] evs2].
        destruct Hcr as (_ & _ & Hcm & _).
        injection Hprep as _ _ <-.
        destruct (Hcm _ Hin) as [x Hx]. discriminate.
    + destruct (prepare_body a clk request path data is_streaming b0 a1 evs1
                  Hloads Hprep) as [Hrw Hnosend].
      pose proof (forward_sends digest loads upstream target a1 clk request path
                    is_streaming b0) as Hfs.
      destruct (forward a1 clk request path is_streaming b0) as [[r a2] evs2].
      simpl. intros s m u h b Hin. apply in_app_or in Hin.
      destruct Hin as [Hin|Hin].
      * exfalso. exact (Hnosend _ Hin s m u h b eq_refl).
      * now rewrite (Hfs s m u h b Hin).
Qed.

(** A body that [json.loads] rejects with [JSONDecodeError] is forwarded
    as it came, and no exception leaves the [try] block. *)
Lemma malformed_json_is_forwarded a clk request path :
  loads (body request) = Raise JSONDecodeError ->
  prepare a clk request path = (Forward (JBool false) (body request), a, []).
Proof.
  intros Hloads. unfold Server.prepare. rewrite Hloads.
  now destruct (_ && _)%bool.
Qed.

(** C5 fails on the code.  A body that is not text in UTF-8, UTF-16 or
    UTF-32 makes [json.loads] raise [UnicodeDecodeError]; the clause
    [except (json.JSONDecodeError, KeyError)] does not catch it, so the
    exception leaves [proxy]: nothing is sent upstream and the caller gets
    an error, where the specification promises a forward of the unchanged
    body. *)
Theorem undecodable_body_is_not_forwarded a clk request path :
  parsed request path ->
  loads (body request) = Raise UnicodeDecodeError ->
  proxy a clk request path = (Unhandled UnicodeDecodeError, a, []).
Proof.
  intros Hp Hloads. apply parsed_guard in Hp.
  unfold Server.proxy, Server.prepare. now rewrite Hp, Hloads.
Qed.
End WithEnvironment.

(** *** Instances *)

(** Stand-ins for the library and the upstream in the examples. *)
Definition toy_md5 (s : string) : string := substring 0 8 s.
Definition toy_py_dict (v : json) : result (dict json) := Raise TypeError.
Definition system_message (content : string) : json :=
  JObj [("role", JStr "system"); ("content", JStr content); ("name", JStr "sys")].
Definition streaming_data : dict json :=
  [("model", JStr "gpt-4");
   ("messages", JArr [system_message "You  are helpful."]);
   ("stream", JBool true);
   ("temperature", JInt 0)].
(** The one byte 0x80, which is not UTF-8. *)
Definition undecodable : string := String (ascii_of_nat 128) "".
Definition toy_loads (b : string) : result json :=
  if String.eqb b "streaming" then Ok (JObj streaming_data)
  else if String.eqb b undecodable then Raise UnicodeDecodeError
  else Raise JSONDecodeError.
Definition toy_dumps (v : json) : string :=
  match v with
  | JObj d => if dict_mem "stream" d then "streaming, compressed" else ""
  | _ => ""
  end.
Definition toy_upstream (stream : bool) (method url : string)
           (headers : dict string) (content : string) : result Upstream :=
  Ok (mkUpstream 200 [("content-type", "application/json")] "{}"
                 (Ok (JObj [])) ["{}"]).
Definition toy_proxy :=
  proxy CacheClaims.toy_digest toy_md5 toy_py_dict toy_loads toy_dumps
        toy_upstream "http://upstream".
Definition app0 : App := mkApp (Compressor.init 2) (Cache.init true 300 200) [].
Definition clock0 : clock := mkClock 0 1 2 3 4 5.
Definition chat_path : string := "v1/chat/completions".
Definition post (body : string) : Request :=
  mkRequest "POST" [("host", "proxy"); ("accept", "*/*")] body.

Lemma streaming_request_never_touches_cache_witness :
  cache (app_after (toy_proxy app0 clock0 (post "streaming") chat_path))
    = cache app0 /\
  forall e, In e (calls_of (toy_proxy app0 clock0 (post "streaming") chat_path)) ->
            is_cache_event e = false.
Proof.
  apply (streaming_request_never_touches_cache
           CacheClaims.toy_digest toy_md5 toy_py_dict toy_loads toy_dumps
           toy_upstream "http://upstream" app0 clock0 (post "streaming")
           chat_path streaming_data (JBool true)).
  - repeat split. discriminate.
  - reflexivity.
  - reflexivity.
  - reflexivity.
Defined.

Lemma compression_rewrites_only_text_witness :
  (exists msgs',
      JArr [system_message "You are helpful."] = JArr msgs' /\
      Forall2 message_frame [system_message "You  are helpful."] msgs') /\
  rewritten toy_dumps streaming_data "streaming" "streaming, compressed".
Proof.
  destruct (compression_rewrites_only_text
              CacheClaims.toy_digest toy_md5 toy_py_dict toy_loads toy_dumps
              toy_upstream "http://upstream") as (_ & Hmsgs & Hsend).
  split.
  - apply (Hmsgs (Compressor.init 2) [system_message "You  are helpful."]
                 (JArr [system_message "You are helpful."])
                 (mkCompressor 2 (mkStats 17 16 1))).
    reflexivity.
  - apply (Hsend app0 clock0 (post "streaming") chat_path streaming_data
                 eq_refl true "POST" "http://upstream/v1/chat/completions"
                 [("accept", "*/*")] "streaming, compressed").
    right. left. reflexivity.
Defined.

Lemma undecodable_body_is_not_forwarded_witness :
  toy_proxy app0 clock0 (post undecodable) chat_path
  = (Unhandled UnicodeDecodeError, app0, []).
Proof.
  apply (undecodable_body_is_not_forwarded
           CacheClaims.toy_digest toy_md5 toy_py_dict toy_loads toy_dumps
           toy_upstream "http://upstream" app0 clock0 (post undecodable)
           chat_path).
  - repeat split. discriminate.
  - reflexivity.
Defined.

End ServerClaims.

(** ** Lines of a text *)

Module LineFacts.

(** The first line of a text, the text after its first newline, and
    whether it has a newline at all. *)
Fixpoint line1 (s : string) : string :=
  match s with
  | EmptyString => ""
  | String c s' => if is_nl c then "" else String c (line1 s')
  end.

Fixpoint after_line (s : string) : string :=
  match s with
  | EmptyString => ""
  | String c s' => if is_nl c then s' else after_line s'
  end.

Fixpoint has_nl (s : string) : bool :=
  match s with
  | EmptyString => false
  | String c s' => if is_nl c then true else has_nl s'
  end.

(** The lines after the first. *)
Definition rest_lines (s : string) : list string :=
  if has_nl s then split_nl (after_line s) else [].

Lemma is_nl_eq c : is_nl c = true -> c = nl.
Proof. apply Ascii.eqb_eq. Qed.

Lemma nl_is_space c : is_nl c = true -> is_space c = true.
Proof. intros H. apply is_nl_eq in H. now subst. Qed.

Lemma split_nl_lines s : split_nl s = line1 s :: rest_lines s.
Proof.
  unfold rest_lines. induction s as [|c s IH]; simpl; auto.
  destruct (is_nl c); auto.
  rewrite IH. now destruct (has_nl s).
Qed.

Lemma in_rest_lines l s : In l (rest_lines s) -> In l (split_nl s).
Proof. rewrite split_nl_lines. now right. Qed.

Lemma line_decomp s :
  s = if has_nl s then line1 s ++ NL ++ after_line s else line1 s.
Proof.
  induction s as [|c s IH]; simpl; auto.
  destruct (is_nl c) eqn:E.
  - apply is_nl_eq in E. now subst.
  - destruct (has_nl s); simpl; f_equal; exact IH.
Qed.

Lemma has_nl_line1 s : has_nl (line1 s) = false.
Proof.
  induction s as [|c s IH]; simpl; auto.
  destruct (is_nl c) eqn:E; simpl; auto. now rewrite E.
Qed.

Lemma no_nl_line1 s : has_nl s = false -> line1 s = s.
Proof.
  induction s as [|c s IH]; simpl; auto.
  destruct (is_nl c); [discriminate|]. intros H. now rewrite IH.
Qed.

Lemma no_nl_after s : has_nl s = false -> after_line s = "".
Proof.
  induction s as [|c s IH]; simpl; auto.
  destruct (is_nl c); [discriminate | auto].
Qed.

Lemma after_line_app u s :
  has_nl u = false -> after_line (u ++ s) = after_line s.
Proof.
  induction u as [|c u IH]; simpl; auto.
  destruct (is_nl c); [discriminate | auto].
Qed.

Lemma has_nl_app u s : has_nl u = false -> has_nl (u ++ s) = has_nl s.
Proof.
  induction u as [|c u IH]; simpl; auto.
  destruct (is_nl c); [discriminate | auto].
Qed.

Lemma after_line_shorter s :
  s <> "" -> (String.length (after_line s) < String.length s)%nat.
Proof.
  induction s as [|c s IH]; [congruence|]. intros _. simpl.
  destruct (is_nl c); [lia|].
  destruct s as [|c' s']; [simpl; lia|].
  assert (String c' s' <> "") by discriminate. specialize (IH H). lia.
Qed.

Lemma split_nl_after_first l x :
  has_nl l = false -> split_nl (l ++ NL ++ x) = l :: split_nl x.
Proof.
  intros Hl. rewrite split_nl_lines. unfold rest_lines.
  induction l as [|c l IH]; simpl in *.
  - reflexivity.
  - destruct (is_nl c); [discriminate|].
    specialize (IH Hl). injection IH as H1 H2. now rewrite H1, H2.
Qed.

Lemma lstrip_shorter s : (String.length (lstrip s) <= String.length s)%nat.
Proof.
  induction s as [|c s IH]; simpl; auto.
  destruct (is_space c); simpl; lia.
Qed.

(** The text is its leading white space followed by its [lstrip]. *)
Lemma lstrip_decomp s : exists ws, s = ws ++ lstrip s.
Proof.
  induction s as [|c s [ws IH]]; simpl.
  - now exists "".
  - destruct (is_space c).
    + exists (String c ws). simpl. now rewrite <- IH.
    + now exists "".
Qed.

Lemma lstrip_starts s c r : lstrip s = String c r -> is_space c = false.
Proof.
  induction s as [|c' s IH]; simpl; [discriminate|].
  destruct (is_space c') eqn:E; auto.
  intros [= -> _]. exact E.
Qed.

(** The [lstrip] of the first line is empty, or the first line of the
    [lstrip] of the text. *)
Lemma lstrip_line1 s :
  lstrip (line1 s) = "" \/ lstrip (line1 s) = line1 (lstrip s).
Proof.
  induction s as [|c s IH]; simpl; auto.
  destruct (is_nl c) eqn:E; simpl; auto.
  destruct (is_space c); simpl; auto.
  right. now rewrite E.
Qed.

End LineFacts.

(** ** compressor.py: duplicate blocks *)

Module DedupClaims.
Import Compressor LineFacts.

(** [block] is the join of three lines that follow one another in
    [lines]. *)
Definition window_of (lines : list string) (block : string) : Prop :=
  exists before l1 l2 l3 after,
    lines = (before ++ l1 :: l2 :: l3 :: after)%list /\
    block = join_nl [l1; l2; l3].

(** The line that stands for a window seen before. *)
Definition marker (block_hash : string) : string :=
  "[... same as above (" ++ block_hash ++ ") ...]".

(** The joins of three lines that follow one another, in order. *)
Fixpoint windows (lines : list string) : list string :=
  match lines with
  | [] => []
  | l1 :: tl =>
      match tl with
      | l2 :: l3 :: _ => join_nl [l1; l2; l3] :: windows tl
      | _ => []
      end
  end.

Lemma window_of_cons l lines block :
  window_of lines block -> window_of (l :: lines) block.
Proof.
  intros (before & l1 & l2 & l3 & after & -> & ->).
  exists (l :: before), l1, l2, l3, after. auto.
Qed.

Lemma window_of_windows lines block :
  window_of lines block -> In block (windows lines).
Proof.
  intros (before & l1 & l2 & l3 & after & -> & ->).
  induction before as [|l before IH].
  - left. reflexivity.
  - change ((l :: before) ++ l1 :: l2 :: l3 :: after)%list
      with (l :: (before ++ l1 :: l2 :: l3 :: after))%list.
    destruct before as [|l' [|l'' before]]; right; exact IH.
Qed.

Lemma windows_short lines :
  forallb (fun b => len b <=? 100) (windows lines) = true ->
  forall block, window_of lines block -> len block <= 100.
Proof.
  intros H block Hw. rewrite forallb_forall in H.
  apply Z.leb_le, H. now apply window_of_windows.
Qed.

Lemma split_nl_nonempty s : split_nl s <> [].
Proof.
  destruct s as [|c s]; simpl; [discriminate|].
  destruct (is_nl c); [discriminate|]. destruct (split_nl s); discriminate.
Qed.

(** ['\n'.join(s.split('\n')) == s] *)
Lemma join_split_nl s : join_nl (split_nl s) = s.
Proof.
  induction s as [|c s IH]; [reflexivity|]. simpl.
  destruct (is_nl c) eqn:E.
  - apply is_nl_eq in E. subst c.
    destruct (split_nl s) as [|l ls] eqn:Es; [now apply split_nl_nonempty in Es|].
    change (join_nl ("" :: l :: ls)) with ("" ++ NL ++ join_nl (l :: ls)).
    now rewrite IH.
  - destruct (split_nl s) as [|l [|l' ls]] eqn:Es;
      [now apply split_nl_nonempty in Es | simpl in *; now rewrite <- IH |].
    change (join_nl (String c l :: l' :: ls))
      with (String c (l ++ NL ++ join_nl (l' :: ls))).
    now rewrite <- IH.
Qed.

Section WithMd5.
Variable md5_8 : string -> string.

Local Abbreviation dedup_loop := (dedup_loop md5_8).
Local Abbreviation _deduplicate_blocks := (_deduplicate_blocks md5_8).

(** [elided seen lines out]: the lines [out] are the lines [lines] with
    some windows replaced by markers, [seen] holding the hashes recorded so
    far.  A line is handed on as it is.  When the three lines that start at
    it join to more than 100 characters, the hash of the join may be
    recorded as the line is handed on; and only then, and only when that
    hash is among the recorded ones, may the three lines give way to the
    marker of the hash.  Nothing else is allowed: a window of at most 100
    characters is neither recorded nor replaced. *)
Inductive elided : list string -> list string -> list string -> Prop :=
| elided_end seen : elided seen [] []
| elided_line seen l lines out :
    elided seen lines out -> elided seen (l :: lines) (l :: out)
| elided_recorded seen l1 l2 l3 lines out :
    100 < len (join_nl [l1; l2; l3]) ->
    elided (md5_8 (join_nl [l1; l2; l3]) :: seen) (l2 :: l3 :: lines) out ->
    elided seen (l1 :: l2 :: l3 :: lines) (l1 :: out)
| elided_replaced seen l1 l2 l3 lines out :
    100 < len (join_nl [l1; l2; l3]) ->
    In (md5_8 (join_nl [l1; l2; l3])) seen ->
    elided seen lines out ->
    elided seen (l1 :: l2 :: l3 :: lines)
           (marker (md5_8 (join_nl [l1; l2; l3])) :: out).

(** A turn of the loop at a line that has two lines behind it. *)
Lemma dedup_loop_window seen l1 l2 l3 rest :
  dedup_loop seen (l1 :: l2 :: l3 :: rest) =
  let block := join_nl [l1; l2; l3] in
  if (seen_mem (md5_8 block) seen && (100 <? len block))%bool then
    Replaced (md5_8 block) block :: dedup_loop seen rest
  else if 100 <? len block then
    Recorded (md5_8 block) block l1
      :: dedup_loop (md5_8 block :: seen) (l2 :: l3 :: rest)
  else Kept l1 :: dedup_loop seen (l2 :: l3 :: rest).
Proof. reflexivity. Qed.

Lemma seen_mem_in h seen : seen_mem h seen = true -> In h seen.
Proof.
  unfold seen_mem. intros H. apply existsb_exists in H.
  destruct H as (x & Hin & Heq). apply String.eqb_eq in Heq. now subst.
Qed.

(** The lines that the loop emits are the lines of the text with some
    windows elided. *)
Lemma dedup_loop_elided n : forall lines seen,
  (length lines <= n)%nat ->
  elided seen lines (map emitted (dedup_loop seen lines)).
Proof.
  induction n as [|n IH]; intros lines seen Hlen.
  - destruct lines; [constructor | simpl in Hlen; lia].
  - destruct lines as [|l1 tl]; [constructor|]. simpl in Hlen.
    assert (Htl : forall seen', elided seen' tl (map emitted (dedup_loop seen' tl)))
      by (intros; apply IH; lia).
    destruct tl as [|l2 [|l3 rest]].
    + apply elided_line, (Htl seen).
    + apply elided_line, (Htl seen).
    + rewrite dedup_loop_window. cbv zeta.
      destruct (100 <? len (join_nl [l1; l2; l3])) eqn:Hlong.
      * apply Z.ltb_lt in Hlong.
        destruct (seen_mem (md5_8 (join_nl [l1; l2; l3])) seen) eqn:Hseen;
          cbn [andb map emitted].
        -- apply elided_replaced; [exact Hlong | now apply seen_mem_in|].
           apply IH. simpl in Hlen. lia.
        -- apply elided_recorded; [exact Hlong | apply Htl].
      * rewrite andb_false_r. cbn [map emitted]. apply elided_line, (Htl seen).
Qed.

(** Where no window is longer than 100 characters the loop emits the
    lines as they are. *)
Lemma dedup_loop_keeps : forall n lines seen, (length lines <= n)%nat ->
  (forall block, window_of lines block -> len block <= 100) ->
  map emitted (dedup_loop seen lines) = lines.
Proof.
  induction n as [|n IH]; intros lines seen Hlen Hw.
  - destruct lines; [reflexivity | simpl in Hlen; lia].
  - destruct lines as [|l1 tl]; [reflexivity|]. simpl in Hlen.
    assert (Hrec : map emitted (dedup_loop seen tl) = tl).
    { apply IH; [lia|]. intros b Hb. apply Hw. now apply window_of_cons. }
    destruct tl as [|l2 [|l3 rest]].
    + reflexivity.
    + reflexivity.
    + rewrite dedup_loop_window. cbv zeta.
      assert (Hshort : (100 <? len (join_nl [l1; l2; l3])) = false).
      { apply Z.ltb_ge. apply Hw. exists [], l1, l2, l3, rest. auto. }
      rewrite Hshort, andb_false_r. cbn [map emitted]. now rewrite Hrec.
Qed.

Lemma elided_lines seen lines : elided seen lines lines.
Proof. induction lines; constructor; auto. Qed.

(** C9.  [_deduplicate_blocks] returns a text of fewer than 20 lines as it
    is.  On any text, what it returns is the lines of the text, in order
    and joined by newlines, but for windows replaced by a marker, as
    [elided] says: three lines that follow one another give way to the
    marker of their hash only when their join is longer than 100
    characters and the hash was recorded at an earlier line, and a hash
    is recorded only for a window whose join is longer than 100
    characters; every other line is returned as it is.  So a text in which
    no three lines that follow one another join to more than 100
    characters is returned as it is, however many lines it has and however
    often they repeat. *)
Theorem dedup_short_text_and_short_windows (text : string) :
  (Z.of_nat (length (split_nl text)) < 20 -> _deduplicate_blocks text = text) /\
  (exists out, _deduplicate_blocks text = join_nl out /\
               elided [] (split_nl text) out) /\
  ((forall block, window_of (split_nl text) block -> len block <= 100) ->
   _deduplicate_blocks text = text).
Proof.
  split; [|split].
  - intros Hshort. unfold Compressor._deduplicate_blocks.
    apply Z.ltb_lt in Hshort. now rewrite Hshort.
  - unfold Compressor._deduplicate_blocks.
    destruct (_ <? 20).
    + exists (split_nl text). split; [symmetry; apply join_split_nl|].
      apply elided_lines.
    + eexists. split; [reflexivity|].
      now apply (dedup_loop_elided (length (split_nl text))).
  - intros Hw. unfold Compressor._deduplicate_blocks.
    destruct (_ <? 20); [reflexivity|].
    rewrite (dedup_loop_keeps _ (split_nl text) [] (Nat.le_refl _) Hw).
    apply join_split_nl.
Qed.
End WithMd5.

(** *** Instances *)

Fixpoint times (n : nat) (s : string) : string :=
  match n with
  | O => ""
  | S n' => s ++ times n' s
  end.

(** The text of [test_deduplication]. *)
Definition long_line : string :=
  "This is a very long line that has enough characters to trigger deduplication in the compressor module.".
Definition repeated : string := times 3 (long_line ++ NL).
Definition dedup_text : string :=
  times 10 ("Header" ++ NL) ++ repeated ++ times 5 ("Middle" ++ NL)
  ++ repeated ++ times 5 ("End" ++ NL).
Definition long_block : string := join_nl [long_line; long_line; long_line].

(** Twenty-five times the same short line. *)
Definition short_lines : string := times 25 ("line" ++ NL).

Lemma dedup_short_text_and_short_windows_witness :
  _deduplicate_blocks (fun s => s) ("a" ++ NL ++ "b") = "a" ++ NL ++ "b" /\
  (exists out,
      _deduplicate_blocks (fun s => s) dedup_text = join_nl out /\
      elided (fun s => s) [] (split_nl dedup_text) out) /\
  _deduplicate_blocks (fun s => s) short_lines = short_lines.
Proof.
  split; [|split].
  - destruct (dedup_short_text_and_short_windows (fun s => s) ("a" ++ NL ++ "b"))
      as (Hshort & _ & _).
    apply Hshort. vm_compute. reflexivity.
  - destruct (dedup_short_text_and_short_windows (fun s => s) dedup_text)
      as (_ & Hout & _).
    exact Hout.
  - destruct (dedup_short_text_and_short_windows (fun s => s) short_lines)
      as (_ & _ & Hsame).
    apply Hsame, windows_short. vm_compute. reflexivity.
Defined.

(** The text of the test comes back with the second run of the long line
    replaced by one marker. *)
Lemma dedup_text_result :
  _deduplicate_blocks (fun s => s) dedup_text =
  times 10 ("Header" ++ NL) ++ repeated ++ times 5 ("Middle" ++ NL)
  ++ marker long_block ++ NL ++ times 5 ("End" ++ NL).
Proof. vm_compute. reflexivity. Qed.

End DedupClaims.

(** ** The matcher *)

Module ReFacts.
Import Re LineFacts.

Fixpoint drop_while (p : ascii -> bool) (s : string) : string :=
  match s with
  | String c s' => if p c then drop_while p s' else s
  | EmptyString => ""
  end.

(** The character before the position reached after reading [u]. *)
Fixpoint prev_after (pr : option ascii) (u : string) : option ascii :=
  match u with
  | EmptyString => pr
  | String c u' => prev_after (Some c) u'
  end.

(** The position is the start of a line. *)
Definition at_bol (pr : option ascii) : bool :=
  match pr with
  | None => true
  | Some c => is_nl c
  end.

Lemma lstrip_drop_while s : lstrip s = drop_while is_space s.
Proof. induction s as [|c s IH]; simpl; auto. now rewrite IH. Qed.

Lemma prev_after_app pr u v :
  prev_after pr (u ++ v) = prev_after (prev_after pr u) v.
Proof. revert pr. induction u as [|c u IH]; simpl; auto. Qed.

(** A greedy star first tries the whole run; every other state it tries
    has a character of the class ahead. *)
Lemma rev_runs p pr s cs :
  exists pr' l,
    rev (runs p pr s cs) = MState pr' (drop_while p s) cs :: l /\
    Forall (fun st => exists c r, rest st = String c r /\ p c = true) l.
Proof.
  revert pr. induction s as [|c s IH]; intros pr; simpl.
  - exists pr, []. auto.
  - destruct (p c) eqn:E.
    + destruct (IH (Some c)) as (pr' & l & Hrev & Hall).
      simpl. rewrite Hrev. exists pr', (l ++ [MState pr (String c s) cs])%list.
      split; auto. apply Forall_app. split; auto.
      constructor; [|constructor]. simpl. eauto.
    + exists pr, []. auto.
Qed.

Lemma flat_map_first {A B : Type} (f : A -> list B) x l :
  Forall (fun y => f y = []) l -> flat_map f (x :: l) = f x.
Proof.
  intros Hall. simpl. replace (flat_map f l) with (@nil B).
  - apply app_nil_r.
  - induction Hall as [|y l Hy _ IH]; simpl; auto. now rewrite Hy.
Qed.

(** After a match of [length u] characters the scan resumes behind [u]. *)
Lemma sub_loop_skip r repl u : forall pr v,
  sub_loop r repl pr (u ++ v) (String.length u) =
  sub_loop r repl (prev_after pr u) v 0.
Proof.
  induction u as [|c u IH]; intros pr v; simpl; auto.
Qed.

(** [.*$\n?] matches to the end of the line, newline included. *)
Definition to_eol : regex := Seq (star is_dot) (Seq Eol (opt is_nl)).

Lemma drop_dots s :
  (has_nl s = false /\ drop_while is_dot s = "") \/
  (has_nl s = true /\ drop_while is_dot s = String nl (after_line s)).
Proof.
  induction s as [|c s IH]; simpl; auto.
  unfold is_dot. destruct (is_nl c) eqn:E; simpl; auto.
  right. apply is_nl_eq in E. now subst.
Qed.

Lemma runs_head p pr s cs : exists l, runs p pr s cs = MState pr s cs :: l.
Proof. destruct s; simpl; eauto. Qed.

Lemma to_eol_match pr s cs :
  exists pr' l, matches to_eol (MState pr s cs) = MState pr' (after_line s) cs :: l.
Proof.
  unfold to_eol. cbn [matches star]. unfold bounded. cbn [skipn prev rest caps].
  destruct (rev_runs is_dot pr s cs) as (pr1 & l & -> & _).
  cbn [flat_map].
  destruct (drop_dots s) as [[Hn ->]|[Hn ->]].
  - rewrite (no_nl_after _ Hn). simpl. eauto.
  - simpl. destruct (runs_head is_nl (Some nl) (after_line s) cs) as [l' ->].
    simpl. eauto.
Qed.

Section CommentPattern.
(** [marker] is the part of the pattern between [^\s*] and [.*$\n?], and
    [ok s] tells whether it matches at the head of [s]. *)
Variable marker : regex.
Variable ok : string -> bool.
Hypothesis ok_match : forall pr s cs,
  ok s = true ->
  exists pr' u s', matches marker (MState pr s cs) = [MState pr' s' cs] /\
                   s = u ++ s' /\ has_nl u = false.
Hypothesis ok_no_match : forall pr s cs,
  ok s = false -> matches marker (MState pr s cs) = [].
Hypothesis ok_space : forall c s, is_space c = true -> ok (String c s) = false.
Hypothesis ok_empty : ok "" = false.

(** [(?m)^\s*<marker>.*$\n?] *)
Definition comment_re : regex :=
  Seq Bol (Seq (star is_space) (Seq marker to_eol)).

Lemma comment_match pr s :
  at_bol pr = true -> ok (lstrip s) = true ->
  match_at comment_re pr s =
  Some ([], (String.length s - String.length (after_line (lstrip s)))%nat).
Proof.
  intros Hbol Hok. unfold match_at, comment_re.
  cbn [matches]. cbn [prev rest caps].
  assert (Hb : match pr with
               | Some c => if is_nl c then [MState pr s []] else []
               | None => [MState pr s []]
               end = [MState pr s []]).
  { destruct pr as [c|]; auto. simpl in Hbol. now rewrite Hbol. }
  rewrite Hb. cbn [flat_map]. rewrite app_nil_r.
  unfold star at 1. cbn [matches bounded skipn prev rest caps].
  destruct (rev_runs is_space pr s []) as (pr1 & l & -> & Hall).
  rewrite <- lstrip_drop_while.
  rewrite flat_map_first.
  - destruct (ok_match pr1 (lstrip s) [] Hok) as (pr2 & u & s2 & -> & Hs & Hu).
    cbn [flat_map]. rewrite app_nil_r.
    destruct (to_eol_match pr2 s2 []) as (pr3 & l3 & ->).
    cbn [rest caps]. rewrite Hs. now rewrite (after_line_app _ _ Hu).
  - eapply Forall_impl; [|exact Hall].
    intros [pr' t cs] (c & r & Ht & Hc). simpl in Ht. subst t.
    rewrite (ok_no_match pr' (String c r) cs); auto.
Qed.

Lemma comment_no_match pr s :
  at_bol pr = false \/ ok (lstrip s) = false ->
  match_at comment_re pr s = None.
Proof.
  intros H. unfold match_at, comment_re. cbn [matches]. cbn [prev rest caps].
  destruct (at_bol pr) eqn:Hbol.
  - destruct H as [H|Hok]; [discriminate|].
    assert (Hb : match pr with
                 | Some c => if is_nl c then [MState pr s []] else []
                 | None => [MState pr s []]
                 end = [MState pr s []]).
    { destruct pr as [c|]; auto. simpl in Hbol. now rewrite Hbol. }
    rewrite Hb. cbn [flat_map]. rewrite app_nil_r.
    unfold star at 1. cbn [matches bounded skipn prev rest caps].
    destruct (rev_runs is_space pr s []) as (pr1 & l & -> & Hall).
    rewrite <- lstrip_drop_while.
    rewrite flat_map_first.
    + now rewrite (ok_no_match pr1 (lstrip s) [] Hok).
    + eapply Forall_impl; [|exact Hall].
      intros [pr' t cs] (c & r & Ht & Hc). simpl in Ht. subst t.
      rewrite (ok_no_match pr' (String c r) cs); auto.
  - destruct pr as [c|]; [|discriminate]. simpl in Hbol. now rewrite Hbol.
Qed.
End CommentPattern.

End ReFacts.

(** ** A comment pass, line by line *)

Module CommentPass.
Import Re LineFacts ReFacts.

Lemma length_app u v :
  String.length (u ++ v) = (String.length u + String.length v)%nat.
Proof. induction u as [|c u IH]; simpl; auto. Qed.

Lemma app_assoc3 a b c : (a ++ b ++ c = (a ++ b) ++ c)%string.
Proof. induction a as [|x a IH]; simpl; auto. now rewrite IH. Qed.

Lemma app_empty_r a : (a ++ "" = a)%string.
Proof. induction a as [|x a IH]; simpl; auto. now rewrite IH. Qed.

(** The text splits into what a match at its head removes and what is
    left; what is removed ends with a newline unless nothing is left. *)
Lemma removed_prefix s :
  exists u, s = u ++ after_line (lstrip s) /\
            (has_nl (lstrip s) = true -> forall pr, prev_after pr u = Some nl) /\
            (has_nl (lstrip s) = false -> after_line (lstrip s) = "").
Proof.
  destruct (lstrip_decomp s) as [ws Hws].
  pose proof (line_decomp (lstrip s)) as Hl.
  destruct (has_nl (lstrip s)) eqn:Hn.
  - exists (ws ++ line1 (lstrip s) ++ NL). repeat split; try discriminate.
    + rewrite <- app_assoc3, <- app_assoc3. simpl.
      rewrite Hws at 1. f_equal. exact Hl.
    + intros _ pr. rewrite prev_after_app, prev_after_app. reflexivity.
  - exists s. rewrite (no_nl_after _ Hn). repeat split; try discriminate.
    now rewrite app_empty_r.
Qed.

Section Pass.
Variable marker : regex.
Variable ok : string -> bool.
Hypothesis ok_match : forall pr s cs,
  ok s = true ->
  exists pr' u s', matches marker (MState pr s cs) = [MState pr' s' cs] /\
                   s = u ++ s' /\ has_nl u = false.
Hypothesis ok_no_match : forall pr s cs,
  ok s = false -> matches marker (MState pr s cs) = [].
Hypothesis ok_space : forall c s, is_space c = true -> ok (String c s) = false.
Hypothesis ok_empty : ok "" = false.
Hypothesis ok_line : forall s, ok (line1 s) = ok s.

(** The scan of [re.sub(comment_re, '', s)] from a position on. *)
Definition pass (pr : option ascii) (s : string) : string :=
  sub_loop (comment_re marker) (fun _ => "") pr s 0.

(** A line is a comment when the marker matches behind its indentation. *)
Definition is_comment (line : string) : bool := ok (lstrip line).

Lemma pass_match pr s :
  at_bol pr = true -> ok (lstrip s) = true ->
  pass pr s = pass (Some nl) (after_line (lstrip s)).
Proof.
  intros Hbol Hok. unfold pass.
  destruct s as [|c s']; [simpl in Hok; congruence|].
  cbn [sub_loop].
  assert (Hm : match_at (comment_re marker) pr (String c s') =
               Some ([], (String.length (String c s')
                          - String.length (after_line (lstrip (String c s'))))%nat))
    by (apply (comment_match marker ok); auto).
  rewrite Hm. clear Hm.
  destruct (removed_prefix (String c s')) as (u & Hu & Hnl & Hend).
  set (left := after_line (lstrip (String c s'))) in *.
  assert (Hshort : (String.length left < String.length (String c s'))%nat).
  { subst left. pose proof (lstrip_shorter (String c s')).
    assert (lstrip (String c s') <> "") by (intros E; rewrite E in Hok; congruence).
    pose proof (after_line_shorter _ H0). lia. }
  assert (Hlen : (String.length (String c s') - String.length left)%nat
                 = String.length u).
  { rewrite Hu at 1. rewrite length_app. lia. }
  rewrite Hlen.
  destruct u as [|c' u'].
  { simpl in Hu. rewrite <- Hu in Hshort. lia. }
  simpl in Hu. injection Hu as <- Hs'. cbn [String.length].
  rewrite Hs'. rewrite sub_loop_skip. simpl.
  destruct (has_nl (lstrip (String c s'))) eqn:Hn.
  - specialize (Hnl eq_refl None). simpl in Hnl. now rewrite Hnl.
  - now rewrite (Hend eq_refl).
Qed.

Lemma pass_no_match s : forall pr,
  at_bol pr = false \/ ok (lstrip s) = false ->
  pass pr s =
  if has_nl s then line1 s ++ NL ++ pass (Some nl) (after_line s) else s.
Proof.
  unfold pass. induction s as [|c s IH]; intros pr H; auto.
  cbn [sub_loop].
  assert (Hm : match_at (comment_re marker) pr (String c s) = None)
    by (apply (comment_no_match marker ok); auto).
  rewrite Hm. cbn [has_nl line1 after_line].
  destruct (is_nl c) eqn:E.
  - apply is_nl_eq in E. subst c. reflexivity.
  - rewrite (IH (Some c)) by (left; exact E).
    destruct (has_nl s); reflexivity.
Qed.

(** What the pass does to the lines: it removes lines and alters none, it
    leaves no comment, and it keeps every line that is neither blank nor a
    comment. *)
Definition lines_ok (s out : string) : Prop :=
  (forall l, In l (split_nl out) -> In l (split_nl s) \/ l = "") /\
  (forall l, In l (split_nl out) -> is_comment l = false) /\
  (forall l, In l (split_nl s) -> lstrip l <> "" -> is_comment l = false ->
             In l (split_nl out)).

(** The lines left behind a match are lines of the text after its first,
    or the empty line that stands for the end of the text. *)
Lemma left_lines s l :
  In l (split_nl (after_line (lstrip s))) -> In l (rest_lines s) \/ l = "".
Proof.
  induction s as [|c s IH]; simpl.
  - intros [<-|[]]. now right.
  - destruct (is_space c) eqn:Esp.
    + intros H. destruct (IH H) as [Hin|]; [left | now right].
      unfold rest_lines in *. simpl.
      destruct (is_nl c); [now apply in_rest_lines | exact Hin].
    + assert (Enl : is_nl c = false).
      { destruct (is_nl c) eqn:E; auto. apply nl_is_space in E. congruence. }
      unfold rest_lines. simpl. rewrite Enl.
      destruct (has_nl s) eqn:Hn; [now left|].
      rewrite (no_nl_after _ Hn). intros [<-|[]]. now right.
Qed.

Lemma is_comment_line1 s :
  lstrip (line1 s) <> "" -> is_comment (line1 s) = ok (lstrip s).
Proof.
  intros Hne. unfold is_comment.
  destruct (lstrip_line1 s) as [H|H]; [contradiction|].
  now rewrite H, ok_line.
Qed.

(** A line that is neither blank nor a comment is not in what a match at
    the head of the text removes. *)
Lemma kept_lines l : forall s,
  ok (lstrip s) = true ->
  In l (split_nl s) -> lstrip l <> "" -> is_comment l = false ->
  In l (split_nl (after_line (lstrip s))).
Proof.
  intros s Hok Hin Hne Hnc.
  induction s as [|c s IH]; [simpl in Hok; congruence|].
  rewrite split_nl_lines in Hin. destruct Hin as [<-|Hin].
  { rewrite (is_comment_line1 _ Hne) in Hnc. congruence. }
  unfold rest_lines in Hin. simpl in Hin, Hok |- *.
  destruct (is_space c) eqn:Esp.
  - apply IH; auto.
    destruct (is_nl c); [exact Hin|].
    rewrite split_nl_lines. right. exact Hin.
  - assert (Enl : is_nl c = false).
    { destruct (is_nl c) eqn:E; auto. apply nl_is_space in E. congruence. }
    rewrite Enl in *. cbn [after_line]. rewrite Enl.
    destruct (has_nl s); [exact Hin | contradiction].
Qed.

Lemma pass_lines n : forall s pr,
  (String.length s <= n)%nat -> at_bol pr = true -> lines_ok s (pass pr s).
Proof.
  induction n as [|n IH]; intros s pr Hlen Hbol.
  - destruct s; [|simpl in Hlen; lia]. unfold lines_ok, is_comment. simpl.
    repeat split; auto.
    intros l [<-|[]]. simpl. exact ok_empty.
  - destruct (ok (lstrip s)) eqn:Hok.
    + rewrite (pass_match _ _ Hbol Hok).
      assert (Hshort : (String.length (after_line (lstrip s)) <= n)%nat).
      { pose proof (lstrip_shorter s).
        assert (lstrip s <> "") by (intros E; rewrite E in Hok; congruence).
        pose proof (after_line_shorter _ H0). lia. }
      destruct (IH (after_line (lstrip s)) (Some nl) Hshort eq_refl)
        as (Hsub & Hclean & Hkeep).
      repeat split.
      * intros l Hl. destruct (Hsub l Hl) as [Hin|]; [|now right].
        destruct (left_lines _ _ Hin) as [Hin'|]; [left | now right].
        now apply in_rest_lines.
      * exact Hclean.
      * intros l Hin Hne Hnc. apply Hkeep; auto. now apply kept_lines.
    + rewrite (pass_no_match s pr (or_intror Hok)).
      pose proof (split_nl_lines s) as Hs. unfold rest_lines in Hs.
      destruct (has_nl s) eqn:Hn.
      * assert (Hshort : (String.length (after_line s) <= n)%nat).
        { assert (s <> "") by (intros E; rewrite E in Hn; discriminate).
          pose proof (after_line_shorter _ H). lia. }
        destruct (IH (after_line s) (Some nl) Hshort eq_refl)
          as (Hsub & Hclean & Hkeep).
        unfold lines_ok.
        rewrite (split_nl_after_first _ _ (has_nl_line1 s)), Hs.
        repeat split.
        -- intros l [<-|Hl]; [left; now left|].
           destruct (Hsub l Hl); [left; now right | now right].
        -- intros l [<-|Hl]; [|now apply Hclean].
           destruct (string_dec (lstrip (line1 s)) "") as [E|E].
           ++ unfold is_comment. rewrite E. exact ok_empty.
           ++ now rewrite (is_comment_line1 _ E).
        -- intros l [<-|Hl] Hne Hnc; [now left|]. right. now apply Hkeep.
      * unfold lines_ok. rewrite Hs. rewrite (no_nl_line1 _ Hn). repeat split.
        -- intros l Hl. now left.
        -- intros l [<-|[]]. exact Hok.
        -- auto.
Qed.

(** [re.sub(comment_re, '', s)] *)
Lemma sub_lines s : lines_ok s (sub_text (comment_re marker) "" s).
Proof. apply (pass_lines (String.length s)); auto. Qed.
End Pass.

End CommentPass.

(** ** compressor.py: comments in code blocks *)

Module CommentFacts.
Import Re Compressor LineFacts ReFacts CommentPass.

Local Arguments Ascii.eqb : simpl never.
Local Arguments is_nl : simpl never.
Local Arguments is_space : simpl never.

(** [s.startswith("//")] *)
Definition begins_slashes (s : string) : bool :=
  match s with
  | String a (String b _) => (Ascii.eqb "/" a && Ascii.eqb "/" b)%bool
  | _ => false
  end.

(** [s.startswith("#") and not s.startswith("#!")] *)
Definition begins_hash (s : string) : bool :=
  match s with
  | String a r =>
      (Ascii.eqb "#" a
       && negb match r with String b _ => Ascii.eqb "!" b | EmptyString => false end)%bool
  | EmptyString => false
  end.

(** [s.startswith("#!")] *)
Definition begins_shebang (s : string) : bool :=
  match s with
  | String a (String b _) => (Ascii.eqb "#" a && Ascii.eqb "!" b)%bool
  | _ => false
  end.

Ltac destruct_prefix_tail :=
  match goal with |- _ = prefix _ ?s => now destruct s end.

Ltac prefix_cases :=
  repeat match goal with
         | |- context [ascii_dec ?x ?y] =>
             destruct (ascii_dec x y) as [<-|]; cbn [prefix]
         end;
  repeat match goal with
         | |- context [Ascii.eqb ?x ?y] => destruct (Ascii.eqb_spec x y)
         end;
  try reflexivity; try contradiction; try congruence;
  try solve [destruct_prefix_tail].

Lemma begins_slashes_startswith s : begins_slashes s = startswith "//" s.
Proof.
  unfold startswith.
  destruct s as [|a [|b s]]; cbn [prefix begins_slashes]; auto; prefix_cases.
Qed.

Lemma begins_shebang_startswith s : begins_shebang s = startswith "#!" s.
Proof.
  unfold startswith.
  destruct s as [|a [|b s]]; cbn [prefix begins_shebang]; auto; prefix_cases.
Qed.

Definition slashes : regex := text "//".
Definition hash_not_bang : regex := Seq (lit "#") (NotAhead (lit "!")).

Lemma re_slash_comment_shape : re_slash_comment = comment_re slashes.
Proof. reflexivity. Qed.

Lemma re_hash_comment_shape : re_hash_comment = comment_re hash_not_bang.
Proof. reflexivity. Qed.

Lemma not_nl_of_eqb (x a : ascii) :
  Ascii.eqb x a = true -> is_nl x = false -> is_nl a = false.
Proof. intros H. apply Ascii.eqb_eq in H. now subst. Qed.

Lemma not_space_of_eqb (x a : ascii) :
  Ascii.eqb x a = true -> is_space x = false -> is_space a = false.
Proof. intros H. apply Ascii.eqb_eq in H. now subst. Qed.

(** The five facts that [CommentPass] asks of a marker, for [//]. *)
Lemma slashes_match pr s cs :
  begins_slashes s = true ->
  exists pr' u s', matches slashes (MState pr s cs) = [MState pr' s' cs] /\
                   s = u ++ s' /\ has_nl u = false.
Proof.
  destruct s as [|a [|b s]]; simpl; try discriminate.
  intros H. apply andb_true_iff in H. destruct H as [Ha Hb].
  rewrite Ha. simpl. rewrite Hb. simpl.
  exists (Some b), (String a (String b "")), s. repeat split.
  simpl. now rewrite (not_nl_of_eqb _ _ Ha), (not_nl_of_eqb _ _ Hb).
Qed.

Lemma slashes_no_match pr s cs :
  begins_slashes s = false -> matches slashes (MState pr s cs) = [].
Proof.
  destruct s as [|a [|b s]]; simpl; auto.
  - now destruct (Ascii.eqb "/" a).
  - destruct (Ascii.eqb "/" a); simpl; auto.
    destruct (Ascii.eqb "/" b); simpl; [discriminate | auto].
Qed.

Lemma slashes_space c s : is_space c = true -> begins_slashes (String c s) = false.
Proof.
  intros Hc. destruct s as [|b s]; simpl; auto.
  destruct (Ascii.eqb "/" c) eqn:E; auto.
  rewrite (not_space_of_eqb _ _ E) in Hc by reflexivity. discriminate.
Qed.

Lemma slashes_line s : begins_slashes (line1 s) = begins_slashes s.
Proof.
  destruct s as [|a [|b s]]; simpl; auto.
  - now destruct (is_nl a).
  - destruct (is_nl a) eqn:Ea; simpl.
    + destruct (Ascii.eqb "/" a) eqn:E; auto.
      rewrite (not_nl_of_eqb _ _ E) in Ea by reflexivity. discriminate.
    + destruct (is_nl b) eqn:Eb; simpl; auto.
      destruct (Ascii.eqb "/" b) eqn:E; [|now rewrite andb_false_r].
      rewrite (not_nl_of_eqb _ _ E) in Eb by reflexivity. discriminate.
Qed.

(** The same five facts for [#(?!!)]. *)
Lemma hash_match pr s cs :
  begins_hash s = true ->
  exists pr' u s', matches hash_not_bang (MState pr s cs) = [MState pr' s' cs] /\
                   s = u ++ s' /\ has_nl u = false.
Proof.
  destruct s as [|a s]; simpl; try discriminate.
  intros H. apply andb_true_iff in H. destruct H as [Ha Hb].
  apply negb_true_iff in Hb.
  rewrite Ha. simpl.
  exists (Some a), (String a ""), s. repeat split.
  - destruct s as [|b s]; simpl; auto. now rewrite Hb.
  - simpl. now rewrite (not_nl_of_eqb _ _ Ha).
Qed.

Lemma hash_no_match pr s cs :
  begins_hash s = false -> matches hash_not_bang (MState pr s cs) = [].
Proof.
  destruct s as [|a s]; simpl; auto.
  destruct (Ascii.eqb "#" a); simpl; auto.
  destruct s as [|b s]; simpl; [discriminate|].
  destruct (Ascii.eqb "!" b); simpl; [auto | discriminate].
Qed.

Lemma hash_space c s : is_space c = true -> begins_hash (String c s) = false.
Proof.
  intros Hc. simpl. destruct (Ascii.eqb "#" c) eqn:E; auto.
  rewrite (not_space_of_eqb _ _ E) in Hc by reflexivity. discriminate.
Qed.

Lemma hash_line s : begins_hash (line1 s) = begins_hash s.
Proof.
  destruct s as [|a s]; simpl; auto.
  destruct (is_nl a) eqn:Ea; simpl.
  - destruct (Ascii.eqb "#" a) eqn:E; auto.
    rewrite (not_nl_of_eqb _ _ E) in Ea by reflexivity. discriminate.
  - destruct s as [|b s]; simpl; auto.
    destruct (is_nl b) eqn:Eb; simpl; auto.
    destruct (Ascii.eqb "!" b) eqn:E; auto.
    rewrite (not_nl_of_eqb _ _ E) in Eb by reflexivity. discriminate.
Qed.

Lemma slash_pass_lines s :
  lines_ok begins_slashes s (sub_text re_slash_comment "" s).
Proof.
  rewrite re_slash_comment_shape.
  apply sub_lines; auto using slashes_match, slashes_no_match, slashes_space,
    slashes_line.
Qed.

Lemma hash_pass_lines s :
  lines_ok begins_hash s (sub_text re_hash_comment "" s).
Proof.
  rewrite re_hash_comment_shape.
  apply sub_lines; auto using hash_match, hash_no_match, hash_space, hash_line.
Qed.

(** A shebang line is not blank and is no comment of either kind. *)
Lemma shebang_kept l :
  begins_shebang l = true ->
  lstrip l <> "" /\ begins_slashes (lstrip l) = false /\
  begins_hash (lstrip l) = false.
Proof.
  destruct l as [|a [|b l]]; simpl; try discriminate.
  intros H. apply andb_true_iff in H. destruct H as [Ha Hb].
  rewrite (not_space_of_eqb _ _ Ha) by reflexivity.
  apply Ascii.eqb_eq in Ha, Hb. subst a b. repeat split. discriminate.
Qed.

(** The two comment passes together. *)
Lemma strip_comments_lines code :
  (forall l, In l (split_nl code) -> begins_shebang l = true ->
             In l (split_nl (strip_comments code))) /\
  (forall l, In l (split_nl (strip_comments code)) ->
             begins_slashes (lstrip l) = false /\
             begins_hash (lstrip l) = false) /\
  (forall l, In l (split_nl (strip_comments code)) ->
             In l (split_nl code) \/ l = "").
Proof.
  unfold strip_comments.
  destruct (slash_pass_lines code) as (Hsub1 & Hclean1 & Hkeep1).
  destruct (hash_pass_lines (sub_text re_slash_comment "" code))
    as (Hsub2 & Hclean2 & Hkeep2).
  unfold is_comment in *. repeat split.
  - intros l Hin Hsh. destruct (shebang_kept _ Hsh) as (Hne & Hs & Hh).
    apply Hkeep2; auto.
  - destruct (Hsub2 l H) as [Hin| ->]; [now apply Hclean1 | reflexivity].
  - now apply Hclean2.
  - intros l Hin. destruct (Hsub2 l Hin) as [Hin'|]; [|now right].
    now apply Hsub1.
Qed.

End CommentFacts.

(** ** compressor.py: the fenced blocks that are recognised *)

Module BlockFacts.
Import Re Compressor LineFacts ReFacts CommentPass.

Local Arguments Ascii.eqb : simpl never.

Fixpoint all_chars (p : ascii -> bool) (s : string) : bool :=
  match s with
  | EmptyString => true
  | String c s' => (p c && all_chars p s')%bool
  end.

Definition not_backtick (c : ascii) : bool := negb (Ascii.eqb "`" c).

Lemma backticks_match pr s cs :
  matches backticks (MState pr ("```" ++ s) cs) = [MState (Some "`"%char) s cs].
Proof. reflexivity. Qed.

Lemma backticks_no_match pr c s cs :
  not_backtick c = true -> matches backticks (MState pr (String c s) cs) = [].
Proof.
  unfold not_backtick. intros H. apply negb_true_iff in H.
  cbn. now rewrite H.
Qed.

Lemma drop_while_run p u v :
  all_chars p u = true ->
  (match v with String c _ => p c = false | EmptyString => True end) ->
  drop_while p (u ++ v) = v.
Proof.
  intros Hu Hv. induction u as [|c u IH]; simpl in *.
  - destruct v as [|c v]; auto. simpl. now rewrite Hv.
  - apply andb_true_iff in Hu. destruct Hu as [-> Hu]. auto.
Qed.

Lemma consumed_prefix u v : consumed (u ++ v) v = u.
Proof.
  unfold consumed. rewrite length_app.
  replace (String.length u + String.length v - String.length v)%nat
    with (String.length u) by lia.
  induction u as [|c u IH]; simpl.
  - now destruct v.
  - now rewrite IH.
Qed.

(** The lazy [[\s\S]*?] stops at the first closing fence. *)
Lemma lazy_to_fence (wrap : mstate -> mstate) code : forall pr cs,
  all_chars not_backtick code = true ->
  (forall st, rest (wrap st) = rest st) ->
  exists l,
    flat_map (matches backticks)
             (map wrap (runs is_any pr (code ++ "```") cs)) =
    MState (Some "`"%char) "" (caps (wrap (MState (prev_after pr code) "```" cs)))
    :: l.
Proof.
  induction code as [|c code IH]; intros pr cs Hcode Hwrap.
  - cbn [append runs map flat_map prev_after is_any].
    remember (wrap (MState pr "```" cs)) as w eqn:Hw.
    assert (Hrest : rest w = "```") by (subst w; apply Hwrap).
    destruct w as [wp wr wc]. simpl in Hrest. subst wr.
    assert (Hm : matches backticks (MState wp "```" wc)
                 = [MState (Some "`"%char) "" wc]) by reflexivity.
    rewrite Hm. simpl. eauto.
  - simpl in Hcode. apply andb_true_iff in Hcode. destruct Hcode as [Hc Hcode].
    cbn [append runs map flat_map prev_after is_any].
    remember (wrap (MState pr (String c (code ++ "```")) cs)) as w eqn:Hw.
    assert (Hrest : rest w = String c (code ++ "```")) by (subst w; apply Hwrap).
    destruct w as [wp wr wc]. simpl in Hrest. subst wr.
    rewrite (backticks_no_match wp c _ wc Hc). simpl.
    apply IH; auto.
Qed.

(** A fence followed by word characters and a newline opens a block that
    ends at the next fence. *)
Lemma code_block_match pr lang code :
  all_chars is_word lang = true ->
  all_chars not_backtick code = true ->
  let s := "```" ++ lang ++ NL ++ code ++ "```" in
  match_at re_code_block pr s = Some ([lang; code], String.length s).
Proof.
  intros Hlang Hcode s. subst s. unfold match_at, re_code_block.
  cbn [matches].
  rewrite (backticks_match pr (lang ++ NL ++ code ++ "```") []).
  cbn [flat_map]. rewrite app_nil_r.
  unfold star at 1. cbn [matches bounded skipn prev rest caps].
  destruct (rev_runs is_word (Some "`"%char) (lang ++ NL ++ code ++ "```") [])
    as (pr1 & l1 & -> & _).
  rewrite (drop_while_run is_word lang (NL ++ code ++ "```") Hlang)
    by reflexivity.
  cbn [map flat_map prev rest caps].
  rewrite (consumed_prefix lang (NL ++ code ++ "```")).
  assert (Hnl : matches (lit nl) (MState pr1 (NL ++ code ++ "```") ([] ++ [lang]))
                = [MState (Some nl) (code ++ "```") [lang]]) by reflexivity.
  rewrite Hnl. clear Hnl. cbn [flat_map]. rewrite app_nil_r.
  unfold lazy_star at 1. cbn [matches bounded skipn prev rest caps].
  match goal with
  | |- context [map ?w (runs is_any ?p (code ++ "```") ?c)] =>
      destruct (lazy_to_fence w code p c Hcode (fun st => eq_refl)) as [l2 ->]
  end.
  cbn [app caps rest]. rewrite (consumed_prefix code "```").
  cbn [String.length]. now rewrite Nat.sub_0_r.
Qed.

(** Nothing matches before the first backtick. *)
Lemma sub_before_fence f pre : forall pr s,
  all_chars not_backtick pre = true ->
  sub_loop re_code_block f pr (pre ++ s) 0 =
  pre ++ sub_loop re_code_block f (prev_after pr pre) s 0.
Proof.
  induction pre as [|c pre IH]; intros pr s Hpre; auto.
  simpl in Hpre. apply andb_true_iff in Hpre. destruct Hpre as [Hc Hpre].
  cbn [append sub_loop prev_after].
  assert (Hm : match_at re_code_block pr (String c (pre ++ s)) = None).
  { unfold match_at, re_code_block. cbn [matches].
    now rewrite (backticks_no_match pr c _ [] Hc). }
  rewrite Hm. now rewrite IH.
Qed.

(** A text that ends with its only block: the block is replaced by what
    [compress_code] makes of its two groups. *)
Lemma compress_one_block pre lang code :
  all_chars not_backtick pre = true ->
  all_chars is_word lang = true ->
  all_chars not_backtick code = true ->
  _compress_code_blocks (pre ++ "```" ++ lang ++ NL ++ code ++ "```") =
  pre ++ compress_code [lang; code].
Proof.
  intros Hpre Hlang Hcode. unfold _compress_code_blocks, sub.
  rewrite (sub_before_fence compress_code pre None _ Hpre). f_equal.
  pose proof (code_block_match (prev_after None pre) lang code Hlang Hcode) as Hm.
  cbv zeta in Hm.
  change ("```" ++ lang ++ NL ++ code ++ "```")
    with (String "`" ("``" ++ lang ++ NL ++ code ++ "```")) in *.
  cbn [sub_loop]. rewrite Hm. cbn [String.length].
  rewrite <- (app_empty_r ("``" ++ lang ++ NL ++ code ++ "```")) at 1.
  rewrite sub_loop_skip. cbn [sub_loop]. now rewrite app_empty_r.
Qed.

End BlockFacts.

Module CommentClaims.
Import Re Compressor LineFacts CommentFacts BlockFacts.

(** Where the pattern of [_compress_code_blocks] does find the block.
    Take an opening fence followed by word characters only and a
    newline, a body without a backtick, and the closing fence, behind a
    text without a backtick.  The block is replaced by the fence, the tag,
    and the body after the two comment passes, the removal of empty lines
    and of trailing blanks, and [strip].  Of the comment passes: every line
    of the body that begins with [#!] is a line of their result; no line of
    their result begins, behind its indentation, with [//] or with a [#]
    that is not followed by [!]; and every line of their result is a line
    of the body, or empty. *)
Theorem recognised_block_comments pre lang code :
  all_chars not_backtick pre = true ->
  all_chars is_word lang = true ->
  all_chars not_backtick code = true ->
  _compress_code_blocks (pre ++ "```" ++ lang ++ NL ++ code ++ "```") =
    pre ++ "```" ++ lang ++ NL
    ++ strip (sub_text re_trailing_ws NL
                (sub_text re_empty_lines NL (strip_comments code)))
    ++ NL ++ "```" /\
  (forall l, In l (split_nl code) -> begins_shebang l = true ->
             In l (split_nl (strip_comments code))) /\
  (forall l, In l (split_nl (strip_comments code)) ->
             begins_slashes (lstrip l) = false /\
             begins_hash (lstrip l) = false) /\
  (forall l, In l (split_nl (strip_comments code)) ->
             In l (split_nl code) \/ l = "").
Proof.
  intros Hpre Hlang Hcode. split.
  - now rewrite (compress_one_block pre lang code Hpre Hlang Hcode).
  - apply strip_comments_lines.
Qed.

(** *** Instances *)

(** The block of [test_code_block_preserves_shebangs], with two comments
    added. *)
Definition bash_body : string :=
  "#!/bin/bash" ++ NL ++ "# say hello" ++ NL ++ "echo hello" ++ NL
  ++ "  // done" ++ NL.

Lemma recognised_block_comments_witness :
  _compress_code_blocks ("Run: " ++ "```" ++ "bash" ++ NL ++ bash_body ++ "```") =
    "Run: " ++ "```" ++ "bash" ++ NL ++ "#!/bin/bash" ++ NL ++ "echo hello"
    ++ NL ++ "```" /\
  In "#!/bin/bash" (split_nl (strip_comments bash_body)) /\
  (forall l, In l (split_nl (strip_comments bash_body)) ->
             begins_slashes (lstrip l) = false /\
             begins_hash (lstrip l) = false).
Proof.
  destruct (recognised_block_comments "Run: " "bash" bash_body
              eq_refl eq_refl eq_refl) as (Hblock & Hbang & Hclean & _).
  split; [exact Hblock|]. split; [|exact Hclean].
  apply Hbang; [|reflexivity]. left. reflexivity.
Defined.

(** A fenced block whose tag is not made of word characters. *)
Definition cpp_block : string :=
  "```c++" ++ NL ++ "// note" ++ NL ++ "# define N 1" ++ NL ++ "int x;" ++ NL
  ++ "```".

(** Such a block, some prose with a line that begins with [#], and a block
    tagged [py] with a comment line. *)
Definition two_blocks : string :=
  "```c++" ++ NL ++ "int x;" ++ NL ++ "```" ++ NL ++ "Some text" ++ NL
  ++ "# Heading" ++ NL ++ "```py" ++ NL ++ "# c" ++ NL ++ "x = 1" ++ NL
  ++ "```".

(** C8 fails on the code.  The pattern of [_compress_code_blocks] wants
    word characters and then a newline behind the opening fence.  The
    fence of [cpp_block] is followed by [c++], so the block is not found:
    at every level from 2 on the text comes back as it was, with its [//]
    line and its [#] line.  In [two_blocks] the search goes on from the
    fence that is not found: it takes the closing fence of the first block
    for an opening one and the opening fence of the second block for its
    end, so the line [# Heading] of the prose between the blocks is
    deleted and the comment [# c] inside the second block stays. *)
Theorem unrecognised_fences_keep_comments (md5_8 : string -> string)
        (level : Z) :
  2 <= level ->
  _compress_text md5_8 level cpp_block = cpp_block /\
  In "// note" (split_nl (_compress_text md5_8 level cpp_block)) /\
  In "# define N 1" (split_nl (_compress_text md5_8 level cpp_block)) /\
  split_nl (_compress_text md5_8 level two_blocks) =
    ["```c++"; "int x;"; "```"; "Some text"; "```py"; "# c"; "x = 1"; "```"].
Proof.
  intros Hlevel. unfold _compress_text.
  replace (2 <=? level) with true by (symmetry; apply Z.leb_le; lia).
  destruct (3 <=? level); vm_compute; repeat split; auto.
Qed.

Lemma unrecognised_fences_keep_comments_witness :
  _compress_text (fun s => s) 2 cpp_block = cpp_block /\
  In "# c" (split_nl (_compress_text (fun s => s) 2 two_blocks)) /\
  ~ In "# Heading" (split_nl (_compress_text (fun s => s) 2 two_blocks)).
Proof.
  assert (Hlevel : 2 <= 2) by lia.
  destruct (unrecognised_fences_keep_comments (fun s => s) 2 Hlevel)
    as (Hsame & _ & _ & Hlines).
  split; [exact Hsame|]. rewrite Hlines. split.
  - do 5 right. left. reflexivity.
  - simpl. intuition discriminate.
Defined.

End CommentClaims.
